(** * PXMonitor capture_to_csv: packet parser, application classifier,
      bounded packet buffer, metrics engine and ingestion loop.

    Shallow embedding of [src/pxmonitor/tshark_libs/capture_to_csv.py].

    Numbers.  Python [int] is [Z].  Python [float] is read as an exact
    rational ([Q]): sums, products, quotients and comparisons are the exact
    ones, and [round] rounds half to even on the exact value.  Infinities,
    NaNs and binary rounding error are outside this model.

    Two places leave the exact model.  An [int] that meets a [float], or
    is divided by an [int], must fit a double: [int_to_float] and
    [int_true_divide] return [None] for the [OverflowError] of an [int]
    of magnitude [2^1024 - 2^970] or more, and
    [calculate_network_metrics_call] and [loop_pass] are the metrics
    computation and the loop pass with that way of raising.  The two
    branches of [calculate_std_dev] are also given on binary64 values
    ([calculate_std_dev_double]), every operation rounded.

    Builtins.  [float(str)], [int(str)] and [math.sqrt] are library
    functions that the source calls but does not define; they are the
    fields of the class [Builtins], so every statement holds for any
    choice of them.  [time.time()] is passed in as an argument.

    Dictionaries.  A packet is a Python dict from field name to a value
    whose type depends on the field: [gmap string value].  The two
    [defaultdict(int)] accumulators keep insertion order (it decides the
    order of ties in [sorted]), so they are association lists. *)

From Stdlib Require Import QArith Qround Qabs ZArith Ascii String Lia Lqa Floats.
From stdpp Require Import gmap strings list fin_maps pretty sorting.

Open Scope Z_scope.

(** ** Library functions used by the source *)

Class Builtins := {
  (** [float(s)]: [None] stands for [ValueError]. *)
  py_float : string → option Q;
  (** [int(s)]: [None] stands for [ValueError]. *)
  py_int : string → option Z;
  (** [math.sqrt]. *)
  math_sqrt : Q → Q
}.

(** ** Numeric helpers: comparisons, [max], [min], [sum], [round] *)

Definition Qltb (a b : Q) : bool := negb (Qle_bool b a).
Definition Qgtb (a b : Q) : bool := Qltb b a.
Definition Qgeb (a b : Q) : bool := Qle_bool b a.

#[export] Instance Qlt_decision (a b : Q) : Decision (a < b)%Q :=
  match Qlt_le_dec a b with
  | left Hlt => left Hlt
  | right Hle => right (Qle_not_lt b a Hle)
  end.

(** [max(a, b)] keeps [a] unless [b > a]; [min(a, b)] keeps [a] unless
    [b < a]. *)
Definition py_max (a b : Q) : Q := if Qgtb b a then b else a.
Definition py_min (a b : Q) : Q := if Qltb b a then b else a.

(** [sum(values)] over floats and over ints. *)
Definition sumQ (values : list Q) : Q := fold_left Qplus values 0%Q.
Definition sumZ (values : list Z) : Z := fold_left Z.add values 0.

(** [max(xs)] and [min(xs)] of a list; the source only calls them on a
    non-empty list, [None] stands for the [ValueError] on an empty one. *)
Definition max_list (xs : list Q) : option Q :=
  match xs with
  | [] => None
  | x :: rest => Some (fold_left py_max rest x)
  end.

Definition min_list (xs : list Q) : option Q :=
  match xs with
  | [] => None
  | x :: rest => Some (fold_left py_min rest x)
  end.

(** [round(x)]: nearest integer, ties to the even one. *)
Definition py_round (x : Q) : Z :=
  let f := Qfloor x in
  let r := (x - inject_Z f)%Q in
  if Qltb r (1 # 2) then f
  else if Qltb (1 # 2) r then f + 1
  else if Z.even f then f else f + 1.

(** [round(x, 2)]: nearest multiple of 1/100, ties to the even one. *)
Definition py_round2 (x : Q) : Q :=
  (inject_Z (py_round (x * 100)) / 100)%Q.

(** ** Packets *)

Inductive value :=
| VFloat (q : Q)
| VInt (z : Z)
| VBool (b : bool)
| VStr (s : string).

Abbreviation packet := (gmap string value).

(** [TSHARK_CONFIG["fields"]] *)
Definition TSHARK_fields : list string :=
  [ "frame.time_epoch"; "ip.src"; "ip.dst"; "_ws.col.protocol"; "frame.len";
    "tcp.srcport"; "tcp.dstport"; "ip.ttl"; "tcp.flags";
    "tcp.window_size_value"; "tcp.analysis.ack_rtt";
    "tcp.analysis.retransmission"; "frame.time_delta"; "dns.time" ]%string.

Definition float_fields : list string :=
  [ "frame.time_epoch"; "frame.time_delta"; "tcp.analysis.ack_rtt";
    "dns.time" ]%string.

Definition int_fields : list string :=
  [ "frame.len"; "tcp.srcport"; "tcp.dstport"; "ip.ttl";
    "tcp.window_size_value" ]%string.

Definition retransmission_field : string := "tcp.analysis.retransmission".

(** [p.get(key, default)] at each of the types the source reads.  A value
    of another type than the one read falls back to the default; by
    [parse_packet_well_typed] no packet of the buffer holds one. *)
Definition get_float (p : packet) (key : string) (default : Q) : Q :=
  match p !! key with Some (VFloat q) => q | _ => default end.

Definition get_int (p : packet) (key : string) (default : Z) : Z :=
  match p !! key with Some (VInt z) => z | _ => default end.

Definition get_bool (p : packet) (key : string) (default : bool) : bool :=
  match p !! key with Some (VBool b) => b | _ => default end.

Definition get_str (p : packet) (key : string) (default : string) : string :=
  match p !! key with Some (VStr s) => s | _ => default end.

(** The type discipline of [parse_packet]: the field name fixes the type
    of the value stored under it. *)
Inductive kind := KFloat | KInt | KBool | KStr.

Definition field_kind (key : string) : kind :=
  if bool_decide (key ∈ float_fields) then KFloat
  else if bool_decide (key ∈ int_fields) then KInt
  else if bool_decide (key = retransmission_field) then KBool
  else KStr.

Definition has_type (key : string) (v : value) : bool :=
  match field_kind key, v with
  | KFloat, VFloat _ | KInt, VInt _ | KBool, VBool _ | KStr, VStr _ => true
  | _, _ => false
  end.

Definition well_typed (p : packet) : Prop :=
  map_Forall (λ key v, has_type key v = true) p.

#[export] Instance well_typed_dec (p : packet) : Decision (well_typed p).
Proof. unfold well_typed. apply _. Defined.

(** ** parse_packet *)

(** The body of the [for] loop: the conversion of one raw value under its
    field name.  [None] stands for the exception of [float] or [int]. *)
Definition convert_field `{Builtins} (field_name raw : string) : option value :=
  if bool_decide (field_name ∈ float_fields) then
    if bool_decide (raw = "") then Some (VFloat 0) else VFloat <$> py_float raw
  else if bool_decide (field_name ∈ int_fields) then
    if bool_decide (raw = "") then Some (VInt 0) else VInt <$> py_int raw
  else if bool_decide (field_name = retransmission_field) then
    Some (VBool (bool_decide (raw = "1")))
  else Some (VStr raw).

(** [fields[i] if i < len(fields) else ""] *)
Definition raw_at (fields : list string) (i : nat) : string :=
  default ""%string (fields !! i).

(** [for i, field_name in enumerate(header)], from index [i] on, with the
    dict built so far. *)
Fixpoint parse_loop `{Builtins} (fields : list string) (i : nat)
    (header : list string) (pkt : packet) : option packet :=
  match header with
  | [] => Some pkt
  | field_name :: rest =>
      let raw := raw_at fields i in
      match convert_field field_name raw with
      | Some v => parse_loop fields (S i) rest (<[field_name := v]> pkt)
      | None => None
      end
  end.

(** The dict of the [except] branch; [now] is [time.time()]. *)
Definition default_packet (now : Q) : packet :=
  <["frame.time_epoch" := VFloat now]>
  (<["ip.src" := VStr "unknown"]>
  (<["ip.dst" := VStr "unknown"]>
  (<["_ws.col.protocol" := VStr "Unknown"]>
  (<["frame.len" := VInt 64]>
  (<["tcp.srcport" := VInt 0]>
  (<["tcp.dstport" := VInt 0]>
  (<["ip.ttl" := VInt 64]>
  (<["tcp.flags" := VStr ""]>
  (<["tcp.window_size_value" := VInt 0]>
  (<["tcp.analysis.ack_rtt" := VFloat 0]>
  (<["tcp.analysis.retransmission" := VBool false]>
  (<["frame.time_delta" := VFloat 0]>
  (<["dns.time" := VFloat 0]> ∅))))))))))))).

Definition parse_packet `{Builtins} (now : Q) (fields header : list string)
    : packet :=
  match parse_loop fields 0 header ∅ with
  | Some pkt => pkt
  | None => default_packet now
  end.

(** A conversion error: a non-empty raw value under a numeric field name
    that [float], respectively [int], rejects. *)
Definition conversion_fails `{Builtins} (field_name raw : string) : Prop :=
  raw ≠ ""%string
  ∧ ((field_name ∈ float_fields ∧ py_float raw = None)
     ∨ (field_name ∈ int_fields ∧ py_int raw = None)).

(** Some column of the row fails to convert. *)
Definition conversion_error `{Builtins} (fields header : list string) : Prop :=
  ∃ j field_name,
    header !! j = Some field_name ∧ conversion_fails field_name (raw_at fields j).

(** ** calculate_average, calculate_std_dev *)

Definition calculate_average (values : list Q) : Q :=
  match values with
  | [] => 0
  | _ => sumQ values / inject_Z (Z.of_nat (length values))
  end%Q.

(** Modelled from the Python standard library: [statistics.stdev] is not
    part of the repository.  As in CPython's [statistics._ss] and [stdev],
    [sx] and [sxx] are the exact sums of the data and of their squares,
    [ss = (count * sxx - sx * sx) / count] is the exact sum of squared
    deviations, [mss = ss / (n - 1)], and the result is the square root
    of [mss].  [None] stands for the [StatisticsError] raised on fewer
    than two data points. *)
Definition statistics_stdev `{Builtins} (data : list Q) : option Q :=
  let count := inject_Z (Z.of_nat (length data)) in
  let sx := sumQ data in
  let sxx := sumQ (map (λ x, x * x)%Q data) in
  let ss := ((count * sxx - sx * sx) / count)%Q in
  if (length data <? 2)%nat then None
  else Some (math_sqrt (ss / (count - 1))%Q).

(** The [except] branch of [calculate_std_dev]. *)
Definition std_dev_fallback `{Builtins} (values : list Q) : Q :=
  let avg := calculate_average values in
  let squared_diff_sum := sumQ (map (λ x, (x - avg) ^ 2)%Q values) in
  let variance :=
    (squared_diff_sum / (inject_Z (Z.of_nat (length values)) - 1))%Q in
  math_sqrt variance.

Definition calculate_std_dev `{Builtins} (values : list Q) : Q :=
  if (length values <=? 1)%nat then 0%Q
  else match statistics_stdev values with
       | Some r => r
       | None => std_dev_fallback values
       end.

(** The sample standard deviation in the words of the specification: the
    mean, the sum of the squared deviations from it over [n - 1], and the
    samples that qualify for the jitter and for the latency. *)
Definition mean (xs : list Q) : Q :=
  (sumQ xs / inject_Z (Z.of_nat (length xs)))%Q.

Definition sample_variance (xs : list Q) : Q :=
  (sumQ (map (λ x, (x - mean xs) ^ 2) xs)
   / (inject_Z (Z.of_nat (length xs)) - 1))%Q.

Definition positive_scaled (xs : list Q) : list Q :=
  map (λ x, x * 1000)%Q (filter (λ x, 0 < x)%Q xs).


Definition qualifying_rtts (packets : list packet) : list Q :=
  positive_scaled (map (λ p, get_float p "tcp.analysis.ack_rtt" 0%Q) packets).

(** ** identify_top_applications *)

(** [PORT_MAP] *)
Definition PORT_MAP : gmap Z string :=
  list_to_map
  [ (20, "FTP-DATA"); (21, "FTP"); (22, "SSH"); (23, "Telnet"); (25, "SMTP");
    (53, "DNS"); (67, "DHCP"); (68, "DHCP"); (69, "TFTP"); (80, "HTTP");
    (110, "POP3"); (123, "NTP"); (137, "NetBIOS-NS"); (138, "NetBIOS-DGM");
    (139, "NetBIOS-SSN"); (143, "IMAP"); (161, "SNMP"); (162, "SNMP-TRAP");
    (179, "BGP"); (389, "LDAP"); (443, "HTTPS"); (465, "SMTPS");
    (514, "Syslog"); (587, "SMTP-Submission"); (636, "LDAPS");
    (993, "IMAPS"); (995, "POP3S"); (1080, "SOCKS"); (1194, "OpenVPN");
    (1433, "MSSQL"); (1521, "Oracle DB"); (1723, "PPTP"); (1812, "RADIUS");
    (2049, "NFS"); (2082, "cPanel"); (2083, "cPanel-SSL"); (3306, "MySQL");
    (3389, "RDP"); (3690, "Subversion"); (4444, "Metasploit"); (5000, "UPnP");
    (5432, "PostgreSQL"); (5631, "PCAnywhere"); (5900, "VNC");
    (6379, "Redis"); (8080, "HTTP-Alt"); (8443, "HTTPS-Alt");
    (8888, "Alternate HTTP"); (9001, "Tor ORPort"); (9200, "Elasticsearch");
    (10000, "Webmin"); (27017, "MongoDB"); (50000, "SAP");
    (64738, "Mumble") ]%string.

(** The label computed in the body of the loop of
    [identify_top_applications]. *)
Definition app_name (p : packet) : string :=
  let src_port := get_int p "tcp.srcport" 0 in
  let dst_port := get_int p "tcp.dstport" 0 in
  match PORT_MAP !! src_port with
  | Some name => name
  | None =>
      match PORT_MAP !! dst_port with
      | Some name => name
      | None =>
          if (1024 <? dst_port) && (dst_port <? 49151) then
            ("App-Port-" +:+ pretty dst_port)%string
          else
            let protocol := get_str p "_ws.col.protocol" "Unknown" in
            if bool_decide (protocol ≠ ""%string)
               && bool_decide (protocol ≠ "Unknown"%string)
            then protocol else "Unknown"%string
      end
  end.

(** [d[key] += n] on a [defaultdict(int)]: an existing key is updated in
    place, a new one is appended with [0 + n]. *)
Fixpoint dd_add (d : list (string * Z)) (key : string) (n : Z)
    : list (string * Z) :=
  match d with
  | [] => [(key, 0 + n)]
  | (k, v) :: rest =>
      if bool_decide (k = key) then (k, v + n) :: rest
      else (k, v) :: dd_add rest key n
  end.

(** [d[key]] on a [defaultdict(int)], without inserting. *)
Fixpoint dd_get (d : list (string * Z)) (key : string) : Z :=
  match d with
  | [] => 0
  | (k, v) :: rest => if bool_decide (k = key) then v else dd_get rest key
  end.

(** [sorted(xs, key=..., reverse=True)]: descending and stable. *)
Fixpoint insert_desc (x : string * Z) (sorted : list (string * Z))
    : list (string * Z) :=
  match sorted with
  | [] => [x]
  | y :: rest =>
      if x.2 <? y.2 then y :: insert_desc x rest else x :: sorted
  end.

Definition sorted_desc (xs : list (string * Z)) : list (string * Z) :=
  foldr insert_desc [] xs.

Definition identify_top_applications (packets : list packet) (top_n : nat)
    : list (string * Z) :=
  match packets with
  | [] => []
  | _ =>
      let applications :=
        fold_left (λ apps p, dd_add apps (app_name p) (get_int p "frame.len" 0))
                  packets [] in
      take top_n (sorted_desc applications)
  end.

(** ** calculate_network_metrics *)

(** The [metrics] dict: its keys are fixed, so it is a record. *)
Record MetricsRecord := {
  timestamp : Q;
  latency : Q;
  jitter : Q;
  bandwidth : Q;
  packet_loss : Q;
  dns_delay : Q;
  health_score : Z;
  stability : string;
  congestion_level : string;
  packet_count : Z;
  protocol_counts : list (string * Z);
  top_applications : list string
}.

(** The local variables of [calculate_network_metrics], before the final
    rounding, in the order the source computes them. *)
Definition rtt_values (packets : list packet) : list Q :=
  map (λ p, get_float p "tcp.analysis.ack_rtt" 0 * 1000)%Q
      (filter (λ p, Qgtb (get_float p "tcp.analysis.ack_rtt" 0) 0 = true)
              packets).

Definition raw_latency (packets : list packet) : Q :=
  match rtt_values packets with
  | [] => 0%Q
  | values => calculate_average values
  end.

Definition delta_values (packets : list packet) : list Q :=
  map (λ p, get_float p "frame.time_delta" 0 * 1000)%Q
      (filter (λ p, Qgtb (get_float p "frame.time_delta" 0) 0 = true)
              packets).

Definition raw_jitter `{Builtins} (packets : list packet) : Q :=
  match delta_values packets with
  | [] => 0%Q
  | values => calculate_std_dev values
  end.

Definition total_bytes (packets : list packet) : Z :=
  sumZ (map (λ p, get_int p "frame.len" 0) packets).

Definition timestamps (packets : list packet) : list Q :=
  map (λ p, get_float p "frame.time_epoch" 0%Q) packets.

Definition raw_bandwidth (packets : list packet) : Q :=
  match max_list (timestamps packets), min_list (timestamps packets) with
  | Some hi, Some lo =>
      let time_span := (hi - lo)%Q in
      if Qgtb time_span 0
      then (inject_Z (total_bytes packets * 8) / (time_span * 1000000))%Q
      else 0%Q
  | _, _ => 0%Q
  end.

Definition retransmissions (packets : list packet) : Z :=
  sumZ (map (λ _, 1)
            (filter (λ p, get_bool p "tcp.analysis.retransmission" false = true)
                    packets)).

Definition raw_packet_loss (packets : list packet) : Q :=
  match packets with
  | [] => 0%Q
  | _ =>
      (inject_Z (retransmissions packets)
       / inject_Z (Z.of_nat (length packets)) * 100)%Q
  end.

Definition dns_delay_values (packets : list packet) : list Q :=
  let dns_packets :=
    filter (λ p, get_str p "_ws.col.protocol" "" = "DNS"%string) packets in
  map (λ p, get_float p "dns.time" 0 * 1000)%Q
      (filter (λ p, Qgtb (get_float p "dns.time" 0) 0 = true) dns_packets).

Definition raw_dns_delay (packets : list packet) : Q :=
  match dns_delay_values packets with
  | [] => 0%Q
  | values => calculate_average values
  end.

Definition window_values (packets : list packet) : list Q :=
  map (λ p, inject_Z (get_int p "tcp.window_size_value" 0))
      (filter (λ p, 0 < get_int p "tcp.window_size_value" 0) packets).

Definition avg_window (packets : list packet) : Q :=
  match window_values packets with
  | [] => 0%Q
  | values => calculate_average values
  end.

Definition congestion_of (avg_window bandwidth : Q) : string :=
  if Qgtb avg_window 8000 && Qgtb bandwidth 5 then "Low"
  else if Qgtb avg_window 4000 || Qgtb bandwidth 2 then "Moderate"
  else "High".

Definition stability_of (jitter packet_loss : Q) : string :=
  if Qltb jitter 10 && Qltb packet_loss 1 then "Stable"
  else if Qltb jitter 30 && Qltb packet_loss 5 then "Unstable"
  else "Very Unstable".

Definition health_of (latency jitter packet_loss bandwidth dns_delay : Q) : Z :=
  let latency_score := (py_max 0 (100 - latency / 2) * 0.3)%Q in
  let jitter_score := (py_max 0 (100 - jitter * 2) * 0.2)%Q in
  let packet_loss_score := (py_max 0 (100 - packet_loss * 10) * 0.25)%Q in
  let bandwidth_score := (py_min 100 (bandwidth * 10) * 0.15)%Q in
  let dns_score := (py_max 0 (100 - dns_delay * 2) * 0.1)%Q in
  let health_score :=
    py_round (latency_score + jitter_score + packet_loss_score
              + bandwidth_score + dns_score)%Q in
  Z.max 1 (Z.min 100 health_score).

Definition count_protocols (packets : list packet) : list (string * Z) :=
  fold_left (λ counts p, dd_add counts (get_str p "_ws.col.protocol" "Unknown") 1)
            packets [].

(** The number of packets that carry a given protocol label, a missing
    protocol field counting as ["Unknown"]. *)
Definition packets_labelled (label : string) (packets : list packet) : Z :=
  Z.of_nat (length (filter (λ p, get_str p "_ws.col.protocol" "Unknown" = label)
                           packets)).

(** [now] is the [time.time()] of the [timestamp] entry. *)
Definition calculate_network_metrics `{Builtins} (now : Q)
    (packets : list packet) : option MetricsRecord :=
  match packets with
  | [] => None
  | _ =>
      let latency := raw_latency packets in
      let jitter := raw_jitter packets in
      let bandwidth := raw_bandwidth packets in
      let packet_loss := raw_packet_loss packets in
      let dns_delay := raw_dns_delay packets in
      let top_apps := identify_top_applications packets 5 in
      Some {|
        timestamp := now;
        latency := py_round2 latency;
        jitter := py_round2 jitter;
        bandwidth := py_round2 bandwidth;
        packet_loss := py_round2 packet_loss;
        dns_delay := py_round2 dns_delay;
        health_score := health_of latency jitter packet_loss bandwidth dns_delay;
        stability := stability_of jitter packet_loss;
        congestion_level := congestion_of (avg_window packets) bandwidth;
        packet_count := Z.of_nat (length packets);
        protocol_counts := count_protocols packets;
        top_applications := map fst (take 3 top_apps)
      |}
  end.

(** ** The packet buffer: [deque(maxlen=...)] *)

(** [deque.append] on a deque of bound [maxlen]: the new element goes to
    the right end and, when the bound is exceeded, one element is dropped
    from the left end. *)
Definition deque_append {A} (maxlen : nat) (buf : list A) (x : A) : list A :=
  let buf' := buf ++ [x] in
  if (maxlen <? length buf')%nat then drop 1 buf' else buf'.

Definition BUFFER_MAXLEN : nat := 1000.
Definition METRICS_INTERVAL : Q := 5.

(** ** The loop of start_capture *)

(** [str.isspace] on the characters of a capture line. *)
Definition is_space (c : ascii) : bool :=
  let n := nat_of_ascii c in
  ((9 <=? n) && (n <=? 13) || (28 <=? n) && (n <=? 32))%nat.

Fixpoint lstrip (s : string) : string :=
  match s with
  | String c rest => if is_space c then lstrip rest else s
  | EmptyString => EmptyString
  end.

Fixpoint rstrip (s : string) : string :=
  match s with
  | String c rest =>
      match rstrip rest with
      | EmptyString => if is_space c then EmptyString else String c EmptyString
      | rest' => String c rest'
      end
  | EmptyString => EmptyString
  end.

(** [line.strip()] *)
Definition strip (s : string) : string := rstrip (lstrip s).

(** [line.split(',')] *)
Fixpoint split_comma (s : string) : list string :=
  match s with
  | EmptyString => [EmptyString]
  | String c rest =>
      if Ascii.eqb c "," then EmptyString :: split_comma rest
      else match split_comma rest with
           | cur :: others => String c cur :: others
           | [] => [String c EmptyString]
           end
  end.

(** The globals and locals that the loop reads and writes.  [packets_seen]
    is the global [packet_count]; [csv_rows] is the sequence of rows handed
    to [csv_writer.writerow] after the header row. *)
Record capture_state := {
  header : option (list string);
  packet_buffer : list packet;
  packets_seen : Z;
  last_metrics_time : Q;
  csv_rows : list MetricsRecord
}.

(** One pass through the body of [while True]: what [readline] returned,
    whether [poll()] reports the capture process as ended, and what the
    three calls of [time.time()] return when the pass reaches them: the
    one in the [except] branch of [parse_packet], the one that sets
    [current_time], and the one in [calculate_network_metrics]. *)
Record reading := {
  raw_line : string;
  process_ended : bool;
  parse_clock : Q;
  clock : Q;
  metrics_clock : Q
}.

Inductive outcome :=
| Continue (st : capture_state)
| Break (st : capture_state).

Definition outcome_state (o : outcome) : capture_state :=
  match o with Continue st | Break st => st end.

Definition loop_body `{Builtins} (st : capture_state) (r : reading) : outcome :=
  if bool_decide (raw_line r = ""%string) then
    if process_ended r then Break st else Continue st
  else
    let line := strip (raw_line r) in
    if bool_decide (line = ""%string) then Continue st
    else match header st with
    | None =>
        Continue {| header := Some (split_comma line);
                    packet_buffer := packet_buffer st;
                    packets_seen := packets_seen st;
                    last_metrics_time := last_metrics_time st;
                    csv_rows := csv_rows st |}
    | Some hdr =>
        let fields := split_comma line in
        let pkt := parse_packet (parse_clock r) fields hdr in
        let buffer := deque_append BUFFER_MAXLEN (packet_buffer st) pkt in
        let st1 := {| header := header st;
                      packet_buffer := buffer;
                      packets_seen := packets_seen st + 1;
                      last_metrics_time := last_metrics_time st;
                      csv_rows := csv_rows st |} in
        let current_time := clock r in
        if Qgeb (current_time - last_metrics_time st1) METRICS_INTERVAL
           && negb (bool_decide (buffer = []))
        then
          match calculate_network_metrics (metrics_clock r) buffer with
          | Some metrics =>
              Continue {| header := header st1;
                          packet_buffer := packet_buffer st1;
                          packets_seen := packets_seen st1;
                          last_metrics_time := current_time;
                          csv_rows := csv_rows st1 ++ [metrics] |}
          | None => Continue st1
          end
        else Continue st1
    end.

(** The loop over a finite sequence of readings; it stops at [break]. *)
Fixpoint run_loop `{Builtins} (st : capture_state) (rs : list reading)
    : capture_state :=
  match rs with
  | [] => st
  | r :: rest =>
      match loop_body st r with
      | Continue st' => run_loop st' rest
      | Break st' => st'
      end
  end.

(** The state on entry to the loop; [start] is the [time.time()] stored
    in [last_metrics_time] just before it. *)
Definition initial_state (start : Q) : capture_state :=
  {| header := None; packet_buffer := []; packets_seen := 0;
     last_metrics_time := start; csv_rows := [] |}.

(** ** Sample library functions and sample data

    A decimal fragment of what [int] and [float] accept and an integer
    square root, used where a statement is evaluated on concrete input. *)

Definition digit_of (c : ascii) : option Z :=
  let n := nat_of_ascii c in
  if ((48 <=? n) && (n <=? 57))%nat then Some (Z.of_nat (n - 48)) else None.

Fixpoint digits_value (acc : Z) (s : string) : option Z :=
  match s with
  | EmptyString => Some acc
  | String c rest =>
      match digit_of c with
      | Some d => digits_value (10 * acc + d) rest
      | None => None
      end
  end.

Definition sample_int (s : string) : option Z :=
  match s with
  | EmptyString => None
  | String "-" (String c rest) => Z.opp <$> digits_value 0 (String c rest)
  | _ => digits_value 0 s
  end.

Fixpoint split_dot (s : string) : string * option string :=
  match s with
  | EmptyString => (EmptyString, None)
  | String c rest =>
      if Ascii.eqb c "." then (EmptyString, Some rest)
      else let '(whole, frac) := split_dot rest in (String c whole, frac)
  end.

Definition sample_float (s : string) : option Q :=
  match split_dot s with
  | (whole, None) => inject_Z <$> sample_int whole
  | (whole, Some frac) =>
      match sample_int whole, digits_value 0 frac with
      | Some w, Some f =>
          Some (inject_Z w + inject_Z f / inject_Z (10 ^ Z.of_nat (String.length frac)))%Q
      | _, _ => None
      end
  end.

Definition sample_sqrt (x : Q) : Q := inject_Z (Z.sqrt (Qfloor x)).

Definition sample_builtins : Builtins :=
  {| py_float := sample_float; py_int := sample_int; math_sqrt := sample_sqrt |}.

(** A packet as [parse_packet] builds it from a full row. *)
Definition mk_packet (epoch : Q) (protocol : string) (len src dst window : Z)
    (rtt : Q) (retransmission : bool) (delta dns : Q) : packet :=
  <["frame.time_epoch" := VFloat epoch]>
  (<["ip.src" := VStr "10.0.0.1"]>
  (<["ip.dst" := VStr "10.0.0.2"]>
  (<["_ws.col.protocol" := VStr protocol]>
  (<["frame.len" := VInt len]>
  (<["tcp.srcport" := VInt src]>
  (<["tcp.dstport" := VInt dst]>
  (<["ip.ttl" := VInt 64]>
  (<["tcp.flags" := VStr "0x0010"]>
  (<["tcp.window_size_value" := VInt window]>
  (<["tcp.analysis.ack_rtt" := VFloat rtt]>
  (<["tcp.analysis.retransmission" := VBool retransmission]>
  (<["frame.time_delta" := VFloat delta]>
  (<["dns.time" := VFloat dns]> ∅))))))))))))).

(** Ten packets of 100 bytes, no round-trip estimate, no inter-frame delta,
    no retransmission, captured at [0, 1/9, ..., 1] seconds. *)
Definition scenario1 : list packet :=
  map (λ i : Z, mk_packet (inject_Z i / 9) "TCP" 100 51000 52000 0 0 false 0 0)
      [0; 1; 2; 3; 4; 5; 6; 7; 8; 9].

(** Three packets with inter-frame deltas of 1, 3 and 5 milliseconds and
    round-trip estimates of 20 and 40 milliseconds, one of them a DNS
    answer, one retransmitted. *)
Definition jittery : list packet :=
  [ mk_packet 10 "TCP" 1500 443 51000 8192 0.02 false 0.001 0;
    mk_packet 10.003 "DNS" 90 53 40000 0 0 false 0.003 0.012;
    mk_packet 10.008 "TCP" 1500 51000 443 4096 0.04 true 0.005 0 ].

(** The loop after the header line, and a reading six seconds later. *)
Definition after_header : capture_state :=
  {| header := Some TSHARK_fields; packet_buffer := []; packets_seen := 0;
     last_metrics_time := 0; csv_rows := [] |}.

(** The fourteen column names of the capture source as one header line
    and two data rows, the second with a malformed frame length. *)
Definition sample_header_line : string :=
  "frame.time_epoch,ip.src,ip.dst,_ws.col.protocol,frame.len,tcp.srcport,tcp.dstport,ip.ttl,tcp.flags,tcp.window_size_value,tcp.analysis.ack_rtt,tcp.analysis.retransmission,frame.time_delta,dns.time".

Definition sample_row : string :=
  "12.5,10.0.0.1,10.0.0.2,TCP,100,443,51000,64,0x0010,8192,0.02,1,0.001,".

Definition malformed_row : string :=
  "12.5,10.0.0.1,10.0.0.2,TCP,1e2,443,51000,64,0x0010,8192,0.02,1,0.001,".

Definition due_reading : reading :=
  {| raw_line := sample_row; process_ended := false;
     parse_clock := 6; clock := 6; metrics_clock := 6 |}.

(** More readings: the header line, a blank line, a row two seconds
    after [due_reading] and a row six seconds after it; and one more
    packet. *)
Definition header_reading : reading :=
  {| raw_line := sample_header_line; process_ended := false;
     parse_clock := 1; clock := 1; metrics_clock := 1 |}.

Definition blank_reading : reading :=
  {| raw_line := "  "; process_ended := false;
     parse_clock := 7; clock := 7; metrics_clock := 7 |}.

Definition early_reading : reading :=
  {| raw_line := sample_row; process_ended := false;
     parse_clock := 8; clock := 8; metrics_clock := 8 |}.

Definition later_reading : reading :=
  {| raw_line := sample_row; process_ended := false;
     parse_clock := 12; clock := 12; metrics_clock := 12 |}.

Definition spare_packet : packet :=
  mk_packet 10.009 "UDP" 90 60000 61000 0 0 false 0.001 0.

(** ** build_tshark_command *)

(** [TSHARK_CONFIG]; its ["command"] entry is computed from the location
    of the script, so it is an argument. *)
Record tshark_config := {
  cfg_command : string;
  cfg_default_interface : string;
  cfg_fields : list string
}.

Definition TSHARK_CONFIG (command : string) : tshark_config :=
  {| cfg_command := command;
     cfg_default_interface := "Wi-Fi";
     cfg_fields := TSHARK_fields |}.

Definition build_tshark_command (cfg : tshark_config) (interface : string)
    : list string :=
  let cmd :=
    [ cfg_command cfg; "-i"; interface; "-T"; "fields"; "-E"; "header=y";
      "-E"; "separator=," ]%string in
  fold_left (λ cmd field, cmd ++ ["-e"%string; field]) (cfg_fields cfg) cmd.

(** ** Quantities the properties speak of *)

(** The dict [applications] at the end of the loop of
    [identify_top_applications]. *)
Definition aggregate_applications (packets : list packet) : list (string * Z) :=
  fold_left (λ apps p, dd_add apps (app_name p) (get_int p "frame.len" 0))
            packets [].

(** The bytes of the packets that carry a given application label. *)
Definition app_volume (label : string) (packets : list packet) : Z :=
  sumZ (map (λ p, get_int p "frame.len" 0)
            (filter (λ p, app_name p = label) packets)).

(** The order of [sorted(..., reverse=True)] on the entries: the volume
    does not increase. *)
Definition by_volume_desc (a b : string * Z) : Prop := b.2 ≤ a.2.

(** The three stability classes and the three congestion levels, from
    best to worst. *)
Definition stability_rank (s : string) : nat :=
  if bool_decide (s = "Stable"%string) then 0
  else if bool_decide (s = "Unstable"%string) then 1 else 2.

Definition congestion_rank (s : string) : nat :=
  if bool_decide (s = "Low"%string) then 0
  else if bool_decide (s = "Moderate"%string) then 1 else 2.

(** The readings of a run that carry a packet: non-blank lines. *)
Definition is_row (r : reading) : Prop := strip (raw_line r) ≠ ""%string.

(** A reading that does not end the loop: not the end of the input of a
    capture process that has exited. *)
Definition keeps_running (r : reading) : Prop :=
  raw_line r = ""%string → process_ended r = false.

(** The packet that the loop parses from a row. *)
Definition row_packet `{Builtins} (hdr : list string) (r : reading) : packet :=
  parse_packet (parse_clock r) (split_comma (strip (raw_line r))) hdr.

(** What every row written by the loop satisfies. *)
Definition plausible_record (m : MetricsRecord) : Prop :=
  1 ≤ packet_count m ≤ Z.of_nat BUFFER_MAXLEN
  ∧ 1 ≤ health_score m ≤ 100
  ∧ (0 <= packet_loss m <= 100)%Q
  ∧ (0 <= latency m)%Q
  ∧ (0 <= dns_delay m)%Q
  ∧ (length (top_applications m) ≤ 3)%nat
  ∧ sumZ (map snd (protocol_counts m)) = packet_count m.

(** ** Integers that do not fit a double

    The conversion of an [int] to a [float] is the one place where the
    computation of the metrics can raise: [OverflowError] for an integer
    of magnitude [2^1024 - 2^970] or more, the least that rounds beyond
    the largest double.  The definitions of this part follow the same
    source lines as [raw_bandwidth], [avg_window],
    [calculate_network_metrics] and [loop_body], with that exception
    made explicit; [None] stands for the [OverflowError]. *)

Definition DOUBLE_OVERFLOW : Z := 2 ^ 1024 - 2 ^ 970.

(** An [int] operand of a float operation, as in [int / float]. *)
Definition int_to_float (n : Z) : option Q :=
  if Z.abs n <? DOUBLE_OVERFLOW then Some (inject_Z n) else None.

(** [a / b] on two [int]s, [b] not 0. *)
Definition int_true_divide (a b : Z) : option Q :=
  let quotient := (inject_Z a / inject_Z b)%Q in
  if Qltb (Qabs quotient) (inject_Z DOUBLE_OVERFLOW) then Some quotient
  else None.

(** Lines 175-181: [(total_bytes * 8) / (time_span * 1000000)] divides an
    [int] by a [float]. *)
Definition bandwidth_call (packets : list packet) : option Q :=
  match max_list (timestamps packets), min_list (timestamps packets) with
  | Some hi, Some lo =>
      let time_span := (hi - lo)%Q in
      if Qgtb time_span 0
      then (λ bits, bits / (time_span * 1000000))%Q
             <$> int_to_float (total_bytes packets * 8)
      else Some 0%Q
  | _, _ => Some 0%Q
  end.

(** Lines 193-194: [window_values] is a list of [int]s, so that the
    [sum(values) / len(values)] of [calculate_average] divides two
    [int]s. *)
Definition window_sizes (packets : list packet) : list Z :=
  map (λ p, get_int p "tcp.window_size_value" 0)
      (filter (λ p, 0 < get_int p "tcp.window_size_value" 0) packets).

Definition avg_window_call (packets : list packet) : option Q :=
  match window_sizes packets with
  | [] => Some 0%Q
  | values => int_true_divide (sumZ values) (Z.of_nat (length values))
  end.

(** What a call of [calculate_network_metrics] does: it raises or it
    returns. *)
Inductive call_result :=
| Raised
| Returned (r : option MetricsRecord).

Definition calculate_network_metrics_call `{Builtins} (now : Q)
    (packets : list packet) : call_result :=
  match packets with
  | [] => Returned None
  | _ =>
      let latency := raw_latency packets in
      let jitter := raw_jitter packets in
      match bandwidth_call packets with
      | None => Raised
      | Some bandwidth =>
          let packet_loss := raw_packet_loss packets in
          let dns_delay := raw_dns_delay packets in
          match avg_window_call packets with
          | None => Raised
          | Some avg_window =>
              let top_apps := identify_top_applications packets 5 in
              Returned (Some {|
                timestamp := now;
                latency := py_round2 latency;
                jitter := py_round2 jitter;
                bandwidth := py_round2 bandwidth;
                packet_loss := py_round2 packet_loss;
                dns_delay := py_round2 dns_delay;
                health_score :=
                  health_of latency jitter packet_loss bandwidth dns_delay;
                stability := stability_of jitter packet_loss;
                congestion_level := congestion_of avg_window bandwidth;
                packet_count := Z.of_nat (length packets);
                protocol_counts := count_protocols packets;
                top_applications := map fst (take 3 top_apps)
              |})
          end
      end
  end.

(** One pass through the body of [while True], as [loop_body], with the
    third way out: an exception of [calculate_network_metrics] leaves the
    loop through the [except Exception] of line 392, after the packet
    was appended and counted and before any row is written. *)
Inductive pass_result :=
| Goes_on (st : capture_state)
| Leaves (st : capture_state)
| Fails (st : capture_state).

Definition pass_state (o : pass_result) : capture_state :=
  match o with Goes_on st | Leaves st | Fails st => st end.

Definition loop_pass `{Builtins} (st : capture_state) (r : reading)
    : pass_result :=
  if bool_decide (raw_line r = ""%string) then
    if process_ended r then Leaves st else Goes_on st
  else
    let line := strip (raw_line r) in
    if bool_decide (line = ""%string) then Goes_on st
    else match header st with
    | None =>
        Goes_on {| header := Some (split_comma line);
                   packet_buffer := packet_buffer st;
                   packets_seen := packets_seen st;
                   last_metrics_time := last_metrics_time st;
                   csv_rows := csv_rows st |}
    | Some hdr =>
        let fields := split_comma line in
        let pkt := parse_packet (parse_clock r) fields hdr in
        let buffer := deque_append BUFFER_MAXLEN (packet_buffer st) pkt in
        let st1 := {| header := header st;
                      packet_buffer := buffer;
                      packets_seen := packets_seen st + 1;
                      last_metrics_time := last_metrics_time st;
                      csv_rows := csv_rows st |} in
        let current_time := clock r in
        if Qgeb (current_time - last_metrics_time st1) METRICS_INTERVAL
           && negb (bool_decide (buffer = []))
        then
          match calculate_network_metrics_call (metrics_clock r) buffer with
          | Raised => Fails st1
          | Returned (Some metrics) =>
              Goes_on {| header := header st1;
                         packet_buffer := packet_buffer st1;
                         packets_seen := packets_seen st1;
                         last_metrics_time := current_time;
                         csv_rows := csv_rows st1 ++ [metrics] |}
          | Returned None => Goes_on st1
          end
        else Goes_on st1
    end.


Definition huge_state : capture_state :=
  {| header := Some TSHARK_fields;
     packet_buffer := [mk_packet 1 "TCP" (10 ^ 400) 443 51000 8192 0 false 0 0];
     packets_seen := 1;
     last_metrics_time := 0;
     csv_rows := [] |}.

(** ** calculate_std_dev in double precision

    The two branches of [calculate_std_dev] on binary64 values, each
    operation rounded as IEEE 754 rounds it.  [x ** 2] is read as the
    rounded product [x * x].  [None] stands for an exception. *)

Definition double_of_nat (n : nat) : float :=
  PrimFloat.of_uint63 (Uint63.of_Z (Z.of_nat n)).

(** [sum(values)]: from the [int] 0, left to right. *)
Definition sum_double (values : list float) : float :=
  fold_left PrimFloat.add values 0%float.

Definition calculate_average_double (values : list float) : float :=
  match values with
  | [] => 0%float
  | _ => (sum_double values / double_of_nat (length values))%float
  end.

(** [x ** 2] on a float: [OverflowError] ([None]) when a finite [x] has a
    square beyond the doubles. *)
Definition square_double (x : float) : option float :=
  let y := (x * x)%float in
  if PrimFloat.is_infinity y && PrimFloat.is_finite x then None else Some y.

(** The [except] branch, lines 120-123: [ZeroDivisionError] on a single
    value, which the caller never passes. *)
Definition std_dev_fallback_double (values : list float) : option float :=
  let avg := calculate_average_double values in
  squares ← mapM (λ x, square_double (x - avg)%float) values;
  let squared_diff_sum := sum_double squares in
  if (length values - 1 =? 0)%nat then None
  else
    let variance :=
      (squared_diff_sum / double_of_nat (length values - 1))%float in
    Some (PrimFloat.sqrt variance).

(** Modelled from the Python standard library (CPython 3.11,
    [statistics.py]), which is not part of the repository:
    [_exact_ratio], [_integer_sqrt_of_frac_rto], [_float_sqrt_of_frac]
    and [stdev].  The data are summed as exact fractions and the square
    root of the exact variance is rounded once.  [None] stands for an
    exception: [StatisticsError] on fewer than two values,
    [AttributeError] on a value that is not finite, [OverflowError] on a
    root beyond the doubles. *)
Definition exact_ratio (x : float) : option Q :=
  match Prim2SF x with
  | S754_zero _ => Some 0%Q
  | S754_finite negative m e =>
      Some (inject_Z (if negative then Z.neg m else Z.pos m) * 2 ^ e)%Q
  | _ => None
  end.

Definition bit_length (n : Z) : Z :=
  if n =? 0 then 0 else Z.log2 (Z.abs n) + 1.

Definition integer_sqrt_of_frac_rto (n m : Z) : Z :=
  let a := Z.sqrt (n / m) in
  Z.lor a (if a * a * m =? n then 0 else 1).

(** [numerator * 2^q] as the true division of two [int]s gives it: the
    nearest double, ties to even, and [OverflowError] ([None]) beyond the
    doubles.  [e] is the exponent of the last place of the result and
    [k] the integer, below [2^53 + 1], of that place. *)
Definition round_half_even_shift (n s : Z) : Z :=
  let k := Z.shiftr n s in
  let rest := Z.land n (Z.ones s) in
  let half := Z.shiftl 1 (s - 1) in
  if (half <? rest) || ((rest =? half) && Z.odd k) then k + 1 else k.

Definition int_scaled_to_double (numerator q : Z) : option float :=
  let e := Z.max (bit_length numerator + q - 53) (-1074) in
  let s := e - q in
  let k := if s <=? 0 then Z.shiftl numerator (- s)
           else round_half_even_shift numerator s in
  let r := Z.ldexp (PrimFloat.of_uint63 (Uint63.of_Z k)) e in
  if PrimFloat.is_infinity r then None else Some r.

Definition float_sqrt_of_frac (n m : Z) : option float :=
  let q := (bit_length n - bit_length m - 109) / 2 in
  let root :=
    if 0 <=? q then integer_sqrt_of_frac_rto n (Z.shiftl m (2 * q))
    else integer_sqrt_of_frac_rto (Z.shiftl n (- 2 * q)) m in
  int_scaled_to_double root q.

Definition statistics_stdev_double (data : list float) : option float :=
  match mapM exact_ratio data with
  | None => None
  | Some ratios =>
      let count := inject_Z (Z.of_nat (length data)) in
      let sx := sumQ ratios in
      let sxx := sumQ (map (λ x, x * x)%Q ratios) in
      let ss := ((count * sxx - sx * sx) / count)%Q in
      if (length data <? 2)%nat then None
      else
        let mss := Qred (ss / (count - 1)) in
        float_sqrt_of_frac (Qnum mss) (Z.pos (Qden mss))
  end.

Definition calculate_std_dev_double (values : list float) : option float :=
  if (length values <=? 1)%nat then Some 0%float
  else match statistics_stdev_double values with
       | Some r => Some r
       | None => std_dev_fallback_double values
       end.

(** The doubles nearest to 0.1 and to 0.2. *)
Definition tenth_and_fifth : list float :=
  [0x1.999999999999ap-4; 0x1.999999999999ap-3]%float.

(** * Properties *)

(** ** Comparisons and sums *)

Lemma Qltb_lt (a b : Q) : Qltb a b = true ↔ (a < b)%Q.
Proof.
  unfold Qltb. rewrite negb_true_iff. split.
  - intros Hb. apply Qnot_le_lt. intros Hle.
    apply Qle_bool_iff in Hle. congruence.
  - intros Hlt. destruct (Qle_bool b a) eqn:E; [|done].
    apply Qle_bool_iff in E. apply Qlt_not_le in Hlt. done.
Qed.

Lemma Qltb_ge (a b : Q) : Qltb a b = false ↔ (b <= a)%Q.
Proof.
  unfold Qltb. rewrite negb_false_iff. apply Qle_bool_iff.
Qed.

Lemma Qgeb_le (a b : Q) : Qgeb a b = true ↔ (b <= a)%Q.
Proof. apply Qle_bool_iff. Qed.

#[export] Instance Qltb_proper : Proper (Qeq ==> Qeq ==> eq) Qltb.
Proof.
  intros a a' Ha b b' Hb.
  destruct (Qltb a b) eqn:E1, (Qltb a' b') eqn:E2; try done.
  - apply Qltb_lt in E1. apply Qltb_ge in E2. rewrite Ha, Hb in E1.
    apply Qlt_not_le in E1. done.
  - apply Qltb_ge in E1. apply Qltb_lt in E2. rewrite Ha, Hb in E1.
    apply Qlt_not_le in E2. done.
Qed.

Lemma sumZ_from (xs : list Z) (a : Z) : fold_left Z.add xs a = a + sumZ xs.
Proof.
  unfold sumZ. revert a. induction xs as [|x xs IH]; intros a; simpl.
  - lia.
  - rewrite (IH (a + x)), (IH (0 + x)). lia.
Qed.

Lemma sumZ_cons (x : Z) (xs : list Z) : sumZ (x :: xs) = x + sumZ xs.
Proof. unfold sumZ at 1. simpl. apply sumZ_from. Qed.

Lemma sumQ_from (xs : list Q) (a : Q) :
  (fold_left Qplus xs a == a + sumQ xs)%Q.
Proof.
  unfold sumQ. revert a. induction xs as [|x xs IH]; intros a; simpl.
  - ring.
  - rewrite (IH (a + x)%Q), (IH (0 + x)%Q). ring.
Qed.

Lemma sumQ_cons (x : Q) (xs : list Q) : (sumQ (x :: xs) == x + sumQ xs)%Q.
Proof. unfold sumQ at 1. simpl. rewrite sumQ_from. ring. Qed.

(** ** The bounded buffer *)

Lemma deque_append_length {A} (maxlen : nat) (buf : list A) (x : A) :
  (length buf ≤ maxlen)%nat → (length (deque_append maxlen buf x) ≤ maxlen)%nat.
Proof.
  intros Hle. unfold deque_append.
  destruct (Nat.ltb_spec maxlen (length (buf ++ [x]))) as [Hlt|Hge].
  - rewrite length_drop, length_app. simpl. lia.
  - done.
Qed.

Lemma deque_append_drop {A} (maxlen : nat) (buf : list A) (x : A) :
  (length buf ≤ maxlen)%nat →
  deque_append maxlen buf x
  = drop (length (buf ++ [x]) - maxlen) (buf ++ [x]).
Proof.
  intros Hle. unfold deque_append.
  destruct (Nat.ltb_spec maxlen (length (buf ++ [x]))) as [Hlt|Hge].
  - rewrite length_app in *. simpl in *.
    replace (length buf + 1 - maxlen)%nat with 1%nat by lia. done.
  - replace (length (buf ++ [x]) - maxlen)%nat with 0%nat by lia. done.
Qed.

(** Appending a whole sequence keeps the suffix that fits the bound. *)
Lemma deque_appends {A} (maxlen : nat) (xs buf : list A) :
  (length buf ≤ maxlen)%nat →
  fold_left (deque_append maxlen) xs buf
  = drop (length (buf ++ xs) - maxlen) (buf ++ xs).
Proof.
  revert buf. induction xs as [|x xs IH]; intros buf Hle; simpl.
  - rewrite app_nil_r.
    replace (length buf - maxlen)%nat with 0%nat by lia. done.
  - rewrite IH by (by apply deque_append_length).
    rewrite deque_append_drop by done.
    set (d := (length (buf ++ [x]) - maxlen)%nat).
    assert (Hd : (d ≤ length (buf ++ [x]))%nat) by lia.
    rewrite <- (drop_app_le (buf ++ [x]) xs d) by done.
    rewrite drop_drop, length_drop.
    rewrite <- (app_assoc buf [x] xs). simpl.
    f_equal. subst d. rewrite !length_app in *. simpl in *. lia.
Qed.

(** C5.  For every capacity [C] and every [k > 0], appending [C + k]
    packets to an empty buffer bounded by [C] leaves a buffer of length
    exactly [C] that holds the last [C] appended packets in arrival
    order: the sequence without its first [k] elements. *)
Theorem buffer_keeps_last_C (C k : nat) (xs : list packet) :
  (0 < k)%nat →
  length xs = (C + k)%nat →
  length (fold_left (deque_append C) xs []) = C
  ∧ fold_left (deque_append C) xs [] = drop k xs.
Proof.
  intros Hk Hlen.
  rewrite deque_appends by (simpl; lia). simpl.
  replace (length xs - C)%nat with k by lia.
  split; [|done]. rewrite length_drop. lia.
Qed.

(** ** The [defaultdict(int)] accumulators *)

Lemma dd_add_sum (d : list (string * Z)) (key : string) (n : Z) :
  sumZ (map snd (dd_add d key n)) = sumZ (map snd d) + n.
Proof.
  induction d as [|[k v] d IH]; simpl.
  - rewrite sumZ_cons. unfold sumZ. simpl. lia.
  - case_bool_decide; simpl; rewrite !sumZ_cons; [lia|]. rewrite IH. lia.
Qed.

Lemma dd_add_get (d : list (string * Z)) (key key' : string) (n : Z) :
  dd_get (dd_add d key n) key'
  = if bool_decide (key = key') then dd_get d key' + n else dd_get d key'.
Proof.
  induction d as [|[k v] d IH]; simpl.
  - repeat case_bool_decide; congruence || lia.
  - destruct (bool_decide_reflect (k = key)) as [->|Hk]; simpl.
    + repeat case_bool_decide; congruence || lia.
    + rewrite IH. repeat case_bool_decide; congruence || lia.
Qed.

Lemma dd_add_keys (d : list (string * Z)) (key : string) (n : Z) :
  map fst (dd_add d key n)
  = if bool_decide (key ∈ map fst d) then map fst d else map fst d ++ [key].
Proof.
  induction d as [|[k v] d IH]; simpl.
  - done.
  - destruct (bool_decide_reflect (k = key)) as [->|Hk]; simpl.
    + rewrite bool_decide_eq_true_2; [done|]. apply list_elem_of_here.
    + rewrite IH. destruct (bool_decide_reflect (key ∈ map fst d)) as [Hin|Hin].
      * rewrite bool_decide_eq_true_2; [done|]. by apply list_elem_of_further.
      * rewrite bool_decide_eq_false_2; [done|].
        intros Hin'. apply elem_of_cons in Hin' as [->|Hin']; done.
Qed.

Lemma dd_add_NoDup (d : list (string * Z)) (key : string) (n : Z) :
  NoDup (map fst d) → NoDup (map fst (dd_add d key n)).
Proof.
  intros Hnd. rewrite dd_add_keys. case_bool_decide as Hin; [done|].
  apply NoDup_app. split; [done|]. split.
  - intros x Hx Hx'. apply list_elem_of_singleton in Hx'. by subst.
  - apply NoDup_singleton.
Qed.

Lemma count_protocols_from (packets : list packet) (counts : list (string * Z)) :
  let result :=
    fold_left (λ counts p,
                 dd_add counts (get_str p "_ws.col.protocol" "Unknown") 1)
              packets counts in
  sumZ (map snd result) = sumZ (map snd counts) + Z.of_nat (length packets)
  ∧ (NoDup (map fst counts) → NoDup (map fst result))
  ∧ ∀ label, dd_get result label
             = dd_get counts label + packets_labelled label packets.
Proof.
  revert counts. induction packets as [|p packets IH]; intros counts; simpl.
  - split; [lia|]. split; [done|]. intros label. unfold packets_labelled.
    simpl. lia.
  - destruct (IH (dd_add counts (get_str p "_ws.col.protocol" "Unknown") 1))
      as (Hsum & Hnd & Hget).
    split; [rewrite Hsum, dd_add_sum; lia|].
    split; [intros H; by apply Hnd, dd_add_NoDup|].
    intros label. rewrite Hget, dd_add_get. unfold packets_labelled.
    rewrite filter_cons. repeat case_bool_decide; case_decide; simpl;
      congruence || lia.
Qed.

(** ** The metrics record of a non-empty snapshot *)

Section Metrics.
Context `{!Builtins}.

(** C1.  For every non-empty snapshot the record that is produced has an
    integer health score between 1 and 100: the weighted sum is rounded
    and the rounded value is clamped. *)
Theorem health_score_in_range (now : Q) (packets : list packet) :
  packets ≠ [] →
  Forall well_typed packets →
  ∃ m, calculate_network_metrics now packets = Some m
       ∧ 1 ≤ health_score m ≤ 100
       ∧ health_score m
         = health_of (raw_latency packets) (raw_jitter packets)
                     (raw_packet_loss packets) (raw_bandwidth packets)
                     (raw_dns_delay packets).
Proof.
  intros Hne _. destruct packets as [|p packets]; [done|].
  eexists. split; [reflexivity|]. simpl.
  split; [unfold health_of; lia | done].
Qed.

(** C10.  For every non-empty snapshot the counts of [protocol_counts] add
    up to [packet_count], which is the length of the snapshot: each label
    occurs once and maps to the number of packets carrying it, a packet
    without protocol field counting under ["Unknown"]. *)
Theorem protocol_counts_total (now : Q) (packets : list packet) :
  packets ≠ [] →
  Forall well_typed packets →
  ∃ m, calculate_network_metrics now packets = Some m
       ∧ sumZ (map snd (protocol_counts m)) = packet_count m
       ∧ packet_count m = Z.of_nat (length packets)
       ∧ NoDup (map fst (protocol_counts m))
       ∧ ∀ label, dd_get (protocol_counts m) label
                  = packets_labelled label packets.
Proof.
  intros Hne _. destruct packets as [|p packets]; [done|].
  eexists. split; [reflexivity|]. cbn [protocol_counts packet_count].
  destruct (count_protocols_from (p :: packets) []) as (Hsum & Hnd & Hget).
  unfold count_protocols. split; [rewrite Hsum; done|]. split; [done|].
  split; [apply Hnd; constructor|].
  intros label. rewrite Hget. simpl. done.
Qed.

End Metrics.

(** ** The application classifier *)

(** C3.  The label of a packet is resolved in a fixed order, the first
    match winning: the source port in [PORT_MAP]; else the destination
    port in [PORT_MAP]; else a destination port strictly between 1024 and
    49151 gives ["App-Port-<port>"]; else a protocol label that is neither
    empty nor ["Unknown"]; else ["Unknown"].  A packet from port 443 to
    port 51000 is labelled ["HTTPS"]. *)
Theorem classifier_priority (p : packet) :
  well_typed p →
  let src_port := get_int p "tcp.srcport" 0 in
  let dst_port := get_int p "tcp.dstport" 0 in
  let protocol := get_str p "_ws.col.protocol" "Unknown" in
  (∀ name, PORT_MAP !! src_port = Some name → app_name p = name)
  ∧ (PORT_MAP !! src_port = None →
     ∀ name, PORT_MAP !! dst_port = Some name → app_name p = name)
  ∧ (PORT_MAP !! src_port = None → PORT_MAP !! dst_port = None →
     1024 < dst_port < 49151 →
     app_name p = ("App-Port-" +:+ pretty dst_port)%string)
  ∧ (PORT_MAP !! src_port = None → PORT_MAP !! dst_port = None →
     ¬ (1024 < dst_port < 49151) →
     protocol ≠ ""%string → protocol ≠ "Unknown"%string →
     app_name p = protocol)
  ∧ (PORT_MAP !! src_port = None → PORT_MAP !! dst_port = None →
     ¬ (1024 < dst_port < 49151) →
     protocol = ""%string ∨ protocol = "Unknown"%string →
     app_name p = "Unknown"%string)
  ∧ (src_port = 443 → dst_port = 51000 → app_name p = "HTTPS"%string).
Proof.
  intros _ src_port dst_port protocol. unfold app_name.
  fold src_port dst_port protocol.
  repeat split.
  - intros name ->. done.
  - intros -> name ->. done.
  - intros -> -> [Hlo Hhi].
    apply Z.ltb_lt in Hlo, Hhi. rewrite Hlo, Hhi. done.
  - intros -> -> Hrange Hne Hunk.
    destruct (Z.ltb_spec 1024 dst_port), (Z.ltb_spec dst_port 49151);
      simpl; try lia; by rewrite !bool_decide_eq_true_2.
  - intros -> -> Hrange Hproto.
    destruct (Z.ltb_spec 1024 dst_port), (Z.ltb_spec dst_port 49151);
      simpl; try lia;
      (destruct Hproto as [Hp|Hp];
       [rewrite (bool_decide_eq_false_2 (protocol ≠ ""%string)) by (rewrite Hp; tauto)
       |rewrite (bool_decide_eq_false_2 (protocol ≠ "Unknown"%string)) by (rewrite Hp; tauto)]);
      simpl; rewrite ?andb_false_r; done.
  - intros -> _. done.
Qed.

(** ** The packet parser *)

Lemma numeric_fields_disjoint (key : string) :
  key ∈ float_fields → key ∈ int_fields → False.
Proof.
  unfold float_fields, int_fields. rewrite !elem_of_cons, !elem_of_nil.
  intros [->|[->|[->|[->|[]]]]] [?|[?|[?|[?|[?|[]]]]]]; discriminate.
Qed.

Lemma default_packet_well_typed (now : Q) : well_typed (default_packet now).
Proof.
  unfold well_typed, default_packet.
  repeat (apply map_Forall_insert_2; [done|]). apply map_Forall_empty.
Qed.

Section Parser.
Context `{!Builtins}.

Lemma convert_field_None (field_name raw : string) :
  convert_field field_name raw = None ↔ conversion_fails field_name raw.
Proof.
  unfold convert_field, conversion_fails.
  destruct (bool_decide_reflect (field_name ∈ float_fields)) as [Hf|Hf].
  - destruct (bool_decide_reflect (raw = ""%string)) as [Hr|Hr].
    + split; [done|]. intros [? _]. done.
    + destruct (py_float raw) eqn:E; simpl.
      * split; [done|]. intros [_ [[_ ?]|[Hi _]]]; [done|].
        destruct (numeric_fields_disjoint field_name Hf Hi).
      * split; [|done]. intros _. split; [done|]. left. done.
  - destruct (bool_decide_reflect (field_name ∈ int_fields)) as [Hi|Hi].
    + destruct (bool_decide_reflect (raw = ""%string)) as [Hr|Hr].
      * split; [done|]. intros [? _]. done.
      * destruct (py_int raw) eqn:E; simpl.
        -- split; [done|]. intros [_ [[? _]|[_ ?]]]; done.
        -- split; [|done]. intros _. split; [done|]. right. done.
    + case_bool_decide; (split; [done|]); intros [_ [[? _]|[? _]]]; done.
Qed.

Lemma convert_field_typed (field_name raw : string) (v : value) :
  convert_field field_name raw = Some v → has_type field_name v = true.
Proof.
  unfold convert_field, has_type, field_kind.
  repeat case_bool_decide; intros Hv; simplify_option_eq; done.
Qed.

Lemma parse_loop_None (fields header : list string) (i : nat) (pkt : packet) :
  parse_loop fields i header pkt = None
  ↔ ∃ j field_name, header !! j = Some field_name
                    ∧ conversion_fails field_name (raw_at fields (i + j)).
Proof.
  revert i pkt. induction header as [|f header IH]; intros i pkt; simpl.
  - split; [done|]. intros (j & g & Hj & _). done.
  - destruct (convert_field f (raw_at fields i)) as [v|] eqn:E.
    + rewrite IH. split.
      * intros (j & g & Hj & Hg). exists (S j), g. split; [done|].
        by replace (i + S j)%nat with (S i + j)%nat by lia.
      * intros (j & g & Hj & Hg). destruct j as [|j]; simpl in Hj.
        -- injection Hj as ->. rewrite Nat.add_0_r in Hg.
           apply convert_field_None in Hg. congruence.
        -- exists j, g. split; [done|].
           by replace (S i + j)%nat with (i + S j)%nat by lia.
    + split; [|done]. intros _. exists 0%nat, f. split; [done|].
      rewrite Nat.add_0_r. by apply convert_field_None.
Qed.

(** A successful pass stores, under every name of the header, the
    conversion of the value in the column where the name occurs last,
    and leaves the other keys alone. *)
Lemma parse_loop_Some (fields header : list string) (i : nat) (pkt p : packet) :
  parse_loop fields i header pkt = Some p →
  (∀ key, key ∉ header → p !! key = pkt !! key)
  ∧ (∀ j field_name,
       header !! j = Some field_name →
       (∀ j', (j < j')%nat → header !! j' ≠ Some field_name) →
       p !! field_name = convert_field field_name (raw_at fields (i + j)))
  ∧ (∀ field_name, field_name ∈ header → is_Some (p !! field_name))
  ∧ (well_typed pkt → well_typed p).
Proof.
  revert i pkt. induction header as [|f header IH]; intros i pkt; simpl.
  - intros [= ->]. split; [done|]. split; [intros j g Hj; done|].
    split; [|done]. intros g Hg. by apply elem_of_nil in Hg.
  - destruct (convert_field f (raw_at fields i)) as [v|] eqn:E; [|done].
    intros Hp. destruct (IH _ _ Hp) as (Hout & Hlast & Hin & Hty).
    assert (Hfresh : f ∉ header → p !! f = Some v).
    { intros Hf. rewrite (Hout f Hf). apply lookup_insert_eq. }
    split; [|split; [|split]].
    + intros key Hkey. apply not_elem_of_cons in Hkey as [Hne Hkey].
      rewrite (Hout key Hkey). by apply lookup_insert_ne.
    + intros j g Hj Hlater. destruct j as [|j]; simpl in Hj.
      * injection Hj as ->. rewrite Nat.add_0_r, E. apply Hfresh.
        intros Hf. apply list_elem_of_lookup in Hf as [j' Hj'].
        apply (Hlater (S j')); [lia|done].
      * replace (i + S j)%nat with (S i + j)%nat by lia.
        apply Hlast; [done|]. intros j' Hlt. apply (Hlater (S j')). lia.
    + intros g Hg. destruct (decide (g ∈ header)) as [Hgh|Hgh].
      * by apply Hin.
      * apply elem_of_cons in Hg as [->|Hg]; [|done].
        rewrite Hfresh by done. eauto.
    + intros Hwt. apply Hty. apply map_Forall_insert_2; [|done].
      by apply (convert_field_typed f (raw_at fields i)).
Qed.

(** Every packet the parser returns respects the type discipline. *)
Lemma parse_packet_well_typed (now : Q) (fields header : list string) :
  well_typed (parse_packet now fields header).
Proof.
  unfold parse_packet.
  destruct (parse_loop fields 0 header ∅) as [p|] eqn:E.
  - apply parse_loop_Some in E as (_ & _ & _ & Hty).
    apply Hty, map_Forall_empty.
  - apply default_packet_well_typed.
Qed.

(** C4.  For every header and every row the parser returns a packet and
    raises nothing.  When some column fails to convert the result is the
    stand-in: epoch the current time, protocol ["Unknown"], frame length
    64, TTL 64, ports, window size, round-trip estimate, inter-frame delta
    and DNS time 0, retransmission false.  Otherwise every name of the
    header has a value, the conversion of its column.  In both cases a
    header that lists the fourteen capture fields gives a packet with a
    value for each of them. *)
Theorem parse_packet_total (now : Q) (fields header : list string) :
  let p := parse_packet now fields header in
  (conversion_error fields header → p = default_packet now)
  ∧ (¬ conversion_error fields header →
     (∀ field_name, field_name ∈ header → is_Some (p !! field_name))
     ∧ (∀ j field_name,
          header !! j = Some field_name →
          (∀ j', (j < j')%nat → header !! j' ≠ Some field_name) →
          p !! field_name = convert_field field_name (raw_at fields j)))
  ∧ (default_packet now !! "frame.time_epoch" = Some (VFloat now)
     ∧ default_packet now !! "_ws.col.protocol" = Some (VStr "Unknown")
     ∧ default_packet now !! "frame.len" = Some (VInt 64)
     ∧ default_packet now !! "ip.ttl" = Some (VInt 64)
     ∧ default_packet now !! "tcp.srcport" = Some (VInt 0)
     ∧ default_packet now !! "tcp.dstport" = Some (VInt 0)
     ∧ default_packet now !! "tcp.window_size_value" = Some (VInt 0)
     ∧ default_packet now !! "tcp.analysis.ack_rtt" = Some (VFloat 0)
     ∧ default_packet now !! "frame.time_delta" = Some (VFloat 0)
     ∧ default_packet now !! "dns.time" = Some (VFloat 0)
     ∧ default_packet now !! "tcp.analysis.retransmission" = Some (VBool false))
  ∧ ((∀ field_name, field_name ∈ TSHARK_fields → field_name ∈ header) →
     ∀ field_name, field_name ∈ TSHARK_fields → is_Some (p !! field_name))
  ∧ well_typed p.
Proof.
  intros p. subst p. unfold parse_packet, conversion_error.
  destruct (parse_loop fields 0 header ∅) as [p|] eqn:E.
  - pose proof (parse_loop_Some _ _ _ _ _ E) as (_ & Hlast & Hin & Hty).
    assert (Hok : ¬ ∃ j g, header !! j = Some g
                           ∧ conversion_fails g (raw_at fields j)).
    { intros Herr. apply (parse_loop_None fields header 0 ∅) in Herr.
      congruence. }
    split; [intros Herr; by destruct Hok|].
    split; [intros _; split; [done|apply Hlast]|].
    split; [repeat split; done|].
    split; [intros Hsub g Hg; by apply Hin, Hsub|].
    apply Hty, map_Forall_empty.
  - apply parse_loop_None in E.
    split; [done|]. split; [intros Hok; by destruct Hok|].
    split; [repeat split; done|].
    split; [|apply default_packet_well_typed].
    intros _ g Hg. unfold TSHARK_fields in Hg.
    rewrite !elem_of_cons, elem_of_nil in Hg.
    repeat (destruct Hg as [->|Hg]; [by eexists|]). done.
Qed.

End Parser.

(** ** Averages and standard deviations *)

Lemma inject_nat_succ (n : nat) :
  (inject_Z (Z.of_nat (S n)) == inject_Z (Z.of_nat n) + 1)%Q.
Proof. rewrite Nat2Z.inj_succ. unfold Z.succ. rewrite inject_Z_plus. ring. Qed.

Lemma inject_nat_pos (n : nat) : (0 < n)%nat → (0 < inject_Z (Z.of_nat n))%Q.
Proof.
  intros Hn. change 0%Q with (inject_Z 0). rewrite <- Zlt_Qlt. lia.
Qed.

Lemma inject_nat_gt1 (n : nat) : (2 ≤ n)%nat → (1 < inject_Z (Z.of_nat n))%Q.
Proof.
  intros Hn. change 1%Q with (inject_Z 1). rewrite <- Zlt_Qlt. lia.
Qed.

(** The sum of the squared deviations from any centre [c], expanded. *)
Lemma sum_squared_diff (c : Q) (xs : list Q) :
  (sumQ (map (λ x, (x - c) ^ 2) xs)
   == sumQ (map (λ x, x * x) xs) - 2 * c * sumQ xs
      + inject_Z (Z.of_nat (length xs)) * c * c)%Q.
Proof.
  induction xs as [|x xs IH].
  - unfold sumQ. simpl. ring.
  - cbn [map length]. rewrite !sumQ_cons, IH, inject_nat_succ. ring.
Qed.

(** The two ways of computing the variance agree: the one of
    [statistics.stdev] on the sums of the data and of their squares, and
    the one on the deviations from the mean. *)
Lemma variance_two_ways (xs : list Q) :
  (2 ≤ length xs)%nat →
  let count := inject_Z (Z.of_nat (length xs)) in
  ((count * sumQ (map (λ x, x * x) xs) - sumQ xs * sumQ xs) / count
   / (count - 1)
   == sample_variance xs)%Q.
Proof.
  intros Hlen count. unfold sample_variance, mean. fold count.
  rewrite sum_squared_diff. fold count.
  assert (H1 : (1 < count)%Q) by (by apply inject_nat_gt1).
  clearbody count. field. split; lra.
Qed.

Lemma calculate_average_mean (xs : list Q) :
  xs ≠ [] → calculate_average xs = mean xs.
Proof. destruct xs; done. Qed.

Lemma positive_scaled_filter {A} (f : A → Q) (xs : list A) :
  map (λ x, f x * 1000)%Q (filter (λ x, Qgtb (f x) 0 = true) xs)
  = positive_scaled (map f xs).
Proof.
  unfold positive_scaled. induction xs as [|x xs IH]; [done|].
  cbn [map]. rewrite !filter_cons.
  destruct (decide (0 < f x)%Q) as [Hpos|Hneg].
  - rewrite decide_True by (by apply Qltb_lt). cbn [map]. by rewrite IH.
  - rewrite decide_False; [done|].
    intros Hb. apply Hneg. by apply Qltb_lt.
Qed.

Lemma positive_scaled_none (xs : list Q) :
  Forall (λ x, ¬ (0 < x)%Q) xs → positive_scaled xs = [].
Proof.
  unfold positive_scaled. induction 1 as [|x xs Hx _ IH]; [done|].
  rewrite filter_cons, decide_False by done. done.
Qed.

Section Deviation.
Context `{!Builtins}.
Hypothesis math_sqrt_proper : Proper (Qeq ==> Qeq) math_sqrt.


Lemma std_dev_fallback_value (values : list Q) :
  values ≠ [] →
  std_dev_fallback values = math_sqrt (sample_variance values).
Proof.
  intros Hne. unfold std_dev_fallback, sample_variance.
  by rewrite calculate_average_mean.
Qed.



End Deviation.

(** ** The ingestion loop *)

Section Loop.
Context `{!Builtins}.

(** A pass that reads no packet (end of input or a blank line) leaves
    the whole state as it was. *)
Lemma loop_body_blank (st : capture_state) (r : reading) :
  strip (raw_line r) = ""%string → outcome_state (loop_body st r) = st.
Proof.
  intros Hblank. unfold loop_body.
  case_bool_decide; [by destruct (process_ended r)|].
  by rewrite bool_decide_eq_true_2.
Qed.

Lemma run_loop_blank (st : capture_state) (rs : list reading) :
  Forall (λ r, strip (raw_line r) = ""%string) rs → run_loop st rs = st.
Proof.
  induction 1 as [|r rs Hr _ IH]; simpl; [done|].
  pose proof (loop_body_blank st r Hr) as Hst.
  destruct (loop_body st r) as [st'|st']; simpl in Hst; subst st'; done.
Qed.

(** The buffer of the loop never exceeds its bound and only holds
    packets that respect the type discipline of the parser. *)
Lemma loop_body_buffer (st : capture_state) (r : reading) :
  (length (packet_buffer st) ≤ BUFFER_MAXLEN)%nat
  ∧ Forall well_typed (packet_buffer st) →
  (length (packet_buffer (outcome_state (loop_body st r))) ≤ BUFFER_MAXLEN)%nat
  ∧ Forall well_typed (packet_buffer (outcome_state (loop_body st r))).
Proof.
  intros [Hlen Hwt]. unfold loop_body.
  case_bool_decide; [by destruct (process_ended r)|].
  case_bool_decide; [done|].
  destruct (header st) as [hdr|]; [|done].
  set (pkt := parse_packet _ _ _).
  assert (Hbuf : (length (deque_append BUFFER_MAXLEN (packet_buffer st) pkt)
                  ≤ BUFFER_MAXLEN)%nat
                 ∧ Forall well_typed
                     (deque_append BUFFER_MAXLEN (packet_buffer st) pkt)).
  { split; [by apply deque_append_length|].
    rewrite deque_append_drop by done. apply Forall_drop.
    apply Forall_app. split; [done|].
    apply Forall_singleton, parse_packet_well_typed. }
  destruct (_ && _); [|done].
  destruct (calculate_network_metrics _ _); done.
Qed.

(** A pass that reads a data row appends the parsed packet to the
    buffer and goes on. *)
Lemma loop_body_row (st : capture_state) (r : reading) (hdr : list string) :
  header st = Some hdr →
  strip (raw_line r) ≠ ""%string →
  ∃ st', loop_body st r = Continue st'
         ∧ header st' = Some hdr
         ∧ packets_seen st' = packets_seen st + 1
         ∧ packet_buffer st'
           = deque_append BUFFER_MAXLEN (packet_buffer st)
               (parse_packet (parse_clock r)
                  (split_comma (strip (raw_line r))) hdr).
Proof.
  intros Hhdr Hline. unfold loop_body.
  assert (Hraw : raw_line r ≠ ""%string) by (intros Hr; by rewrite Hr in Hline).
  rewrite (bool_decide_eq_false_2 _ Hraw), (bool_decide_eq_false_2 _ Hline).
  rewrite Hhdr.
  destruct (_ && _); [|by eexists].
  destruct (calculate_network_metrics _ _); by eexists.
Qed.

(** Over a run of data rows the buffer of the loop is the bounded buffer
    fed with the parsed packets, so that from an empty buffer it ends
    with the last [BUFFER_MAXLEN] of them. *)
Lemma run_loop_rows (rs : list reading) (st : capture_state)
    (hdr : list string) :
  header st = Some hdr →
  Forall (λ r, strip (raw_line r) ≠ ""%string) rs →
  packet_buffer (run_loop st rs)
  = fold_left (deque_append BUFFER_MAXLEN)
      (map (λ r, parse_packet (parse_clock r)
                   (split_comma (strip (raw_line r))) hdr) rs)
      (packet_buffer st).
Proof.
  intros Hhdr Hrows. revert st Hhdr.
  induction Hrows as [|r rs Hr _ IH]; intros st Hhdr; simpl; [done|].
  destruct (loop_body_row st r hdr Hhdr Hr) as (st' & -> & Hhdr' & _ & Hbuf).
  rewrite (IH st' Hhdr'), Hbuf. done.
Qed.

Lemma run_loop_keeps_last (rs : list reading) (st : capture_state)
    (hdr : list string) :
  header st = Some hdr →
  packet_buffer st = [] →
  Forall (λ r, strip (raw_line r) ≠ ""%string) rs →
  packet_buffer (run_loop st rs)
  = drop (length rs - BUFFER_MAXLEN)
      (map (λ r, parse_packet (parse_clock r)
                   (split_comma (strip (raw_line r))) hdr) rs).
Proof.
  intros Hhdr Hempty Hrows.
  rewrite (run_loop_rows rs st hdr Hhdr Hrows), Hempty.
  rewrite deque_appends by (simpl; lia). simpl. by rewrite length_map.
Qed.

(** C8.  In the ingestion loop a record is written only in a pass that
    reads a packet (a non-blank line after the header line) for which
    the time elapsed since the last computation is at least the interval
    of 5 seconds and the buffer is not empty.  Passes that read no packet
    write nothing and leave the state alone, whatever the clock shows. *)
Theorem record_only_on_due_packet (st : capture_state) :
  (∀ r, csv_rows (outcome_state (loop_body st r)) ≠ csv_rows st →
     ∃ hdr m,
       header st = Some hdr
       ∧ strip (raw_line r) ≠ ""%string
       ∧ (METRICS_INTERVAL <= clock r - last_metrics_time st)%Q
       ∧ METRICS_INTERVAL = 5%Q
       ∧ packet_buffer (outcome_state (loop_body st r))
         = deque_append BUFFER_MAXLEN (packet_buffer st)
             (parse_packet (parse_clock r) (split_comma (strip (raw_line r)))
                hdr)
       ∧ packet_buffer (outcome_state (loop_body st r)) ≠ []
       ∧ calculate_network_metrics (metrics_clock r)
           (packet_buffer (outcome_state (loop_body st r))) = Some m
       ∧ csv_rows (outcome_state (loop_body st r)) = csv_rows st ++ [m]
       ∧ last_metrics_time (outcome_state (loop_body st r)) = clock r)
  ∧ (∀ rs, Forall (λ r, strip (raw_line r) = ""%string) rs →
       run_loop st rs = st).
Proof.
  split; [|apply run_loop_blank].
  intros r. unfold loop_body.
  case_bool_decide; [by destruct (process_ended r)|].
  case_bool_decide as Hline; [done|].
  destruct (header st) as [hdr|] eqn:Hhdr; [|done].
  cbn [last_metrics_time].
  destruct (Qgeb _ _) eqn:Hdue; [|done].
  destruct (negb _) eqn:Hbuf; [|done]. cbn [andb].
  destruct (calculate_network_metrics _ _) as [m|] eqn:Hm; [|done].
  intros _. exists hdr, m. cbn.
  apply Qgeb_le in Hdue. apply negb_true_iff, bool_decide_eq_false in Hbuf.
  repeat split; done.
Qed.

End Loop.

(** ** Rounding *)

#[export] Instance py_round_proper : Proper (Qeq ==> eq) py_round.
Proof.
  intros x y Hxy. unfold py_round. rewrite (Qfloor_comp x y Hxy).
  assert (Hr : (x - inject_Z (Qfloor y) == y - inject_Z (Qfloor y))%Q)
    by (by rewrite Hxy).
  rewrite (Qltb_proper _ _ Hr _ _ (Qeq_refl (1 # 2))).
  by rewrite (Qltb_proper _ _ (Qeq_refl (1 # 2)) _ _ Hr).
Qed.

#[export] Instance py_round2_proper : Proper (Qeq ==> eq) py_round2.
Proof.
  intros x y Hxy. unfold py_round2.
  assert (Hr : (x * 100 == y * 100)%Q) by (by rewrite Hxy).
  by rewrite Hr.
Qed.

(** [round(x)] is an integer nearest to [x]. *)
Lemma py_round_nearest (x : Q) :
  (x - (1 # 2) <= inject_Z (py_round x) <= x + (1 # 2))%Q.
Proof.
  unfold py_round.
  pose proof (Qfloor_le x) as Hlo. pose proof (Qlt_floor x) as Hhi.
  rewrite inject_Z_plus in Hhi. change (inject_Z 1) with 1%Q in Hhi.
  destruct (Qltb (x - inject_Z (Qfloor x)) (1 # 2)) eqn:E1.
  { apply Qltb_lt in E1. lra. }
  apply Qltb_ge in E1.
  destruct (Qltb (1 # 2) (x - inject_Z (Qfloor x))) eqn:E2.
  { rewrite inject_Z_plus. change (inject_Z 1) with 1%Q. lra. }
  apply Qltb_ge in E2.
  destruct (Z.even (Qfloor x)); [lra|].
  rewrite inject_Z_plus. change (inject_Z 1) with 1%Q. lra.
Qed.

(** [round(x, 2)] is a multiple of 1/100 nearest to [x]. *)
Lemma py_round2_nearest (x : Q) :
  (∃ k : Z, py_round2 x = (inject_Z k / 100)%Q)
  ∧ (x - (1 # 200) <= py_round2 x <= x + (1 # 200))%Q.
Proof.
  split; [by eexists|]. unfold py_round2.
  pose proof (py_round_nearest (x * 100)) as [Hlo Hhi].
  split.
  - apply Qle_shift_div_l; [done|]. lra.
  - apply Qle_shift_div_r; [done|]. lra.
Qed.

(** ** Scenario 1: ten quiet packets of 100 bytes over one second *)

Lemma total_bytes_constant (len : Z) (packets : list packet) :
  Forall (λ p, get_int p "frame.len" 0 = len) packets →
  total_bytes packets = len * Z.of_nat (length packets).
Proof.
  unfold total_bytes. induction 1 as [|p ps Hp _ IH].
  - simpl. unfold sumZ. simpl. lia.
  - cbn [map length]. rewrite sumZ_cons, IH, Hp. lia.
Qed.

Lemma retransmissions_none (packets : list packet) :
  Forall (λ p, get_bool p "tcp.analysis.retransmission" false = false) packets →
  retransmissions packets = 0.
Proof.
  unfold retransmissions. induction 1 as [|p ps Hp _ IH]; [done|].
  rewrite filter_cons, decide_False; [done|]. congruence.
Qed.

Section Scenario.
Context `{!Builtins}.

(** C2, as the code has it.  For a snapshot of 10 packets, each with
    round-trip estimate 0, inter-frame delta 0, no retransmission and
    frame length 100, whose capture timestamps span exactly 1 second,
    the latency, the jitter and the packet loss are 0 and the bandwidth
    computed is 0.008 Mbps.  The record holds every numeric output
    rounded to 2 decimals (a multiple of 1/100 within 1/200 of the
    computed value), so its bandwidth is 0.01. *)
Theorem scenario1_metrics (now hi lo : Q) (packets : list packet) :
  length packets = 10%nat →
  Forall well_typed packets →
  Forall (λ p, (get_float p "tcp.analysis.ack_rtt" 0 == 0)%Q
               ∧ (get_float p "frame.time_delta" 0 == 0)%Q
               ∧ get_bool p "tcp.analysis.retransmission" false = false
               ∧ get_int p "frame.len" 0 = 100) packets →
  max_list (timestamps packets) = Some hi →
  min_list (timestamps packets) = Some lo →
  (hi - lo == 1)%Q →
  ∃ m, calculate_network_metrics now packets = Some m
       ∧ raw_latency packets = 0%Q
       ∧ raw_jitter packets = 0%Q
       ∧ (raw_packet_loss packets == 0)%Q
       ∧ (raw_bandwidth packets == 0.008)%Q
       ∧ (latency m == 0)%Q
       ∧ (jitter m == 0)%Q
       ∧ (packet_loss m == 0)%Q
       ∧ (bandwidth m == 0.01)%Q
       ∧ Forall2 (λ out raw,
                    out = py_round2 raw
                    ∧ (∃ k : Z, out = (inject_Z k / 100)%Q)
                    ∧ (raw - (1 # 200) <= out <= raw + (1 # 200))%Q)
           [latency m; jitter m; bandwidth m; packet_loss m; dns_delay m]
           [raw_latency packets; raw_jitter packets; raw_bandwidth packets;
            raw_packet_loss packets; raw_dns_delay packets].
Proof.
  intros Hlen _ Hall Hmax Hmin Hspan.
  assert (Hne : packets ≠ []) by (intros ->; done).
  assert (Hrtt : rtt_values packets = []).
  { unfold rtt_values. rewrite positive_scaled_filter.
    apply positive_scaled_none, Forall_map.
    eapply Forall_impl; [exact Hall|]. intros p (H0 & _). simpl. lra. }
  assert (Hdelta : delta_values packets = []).
  { unfold delta_values. rewrite positive_scaled_filter.
    apply positive_scaled_none, Forall_map.
    eapply Forall_impl; [exact Hall|]. intros p (_ & H0 & _). simpl. lra. }
  assert (Hlat : raw_latency packets = 0%Q) by (unfold raw_latency; by rewrite Hrtt).
  assert (Hjit : raw_jitter packets = 0%Q) by (unfold raw_jitter; by rewrite Hdelta).
  assert (Hloss : (raw_packet_loss packets == 0)%Q).
  { unfold raw_packet_loss. destruct packets as [|p ps]; [done|].
    rewrite retransmissions_none.
    - unfold Qdiv. change (inject_Z 0) with 0%Q. ring.
    - eapply Forall_impl; [exact Hall|]. by intros q (_ & _ & ? & _). }
  assert (Hbw : (raw_bandwidth packets == 0.008)%Q).
  { unfold raw_bandwidth. rewrite Hmax, Hmin.
    unfold Qgtb. rewrite (Qltb_proper 0%Q 0%Q (Qeq_refl 0%Q) _ _ Hspan).
    change (Qltb 0 1) with true. cbn iota.
    rewrite (total_bytes_constant 100).
    - rewrite Hlen, Hspan. done.
    - eapply Forall_impl; [exact Hall|]. by intros q (_ & _ & _ & ?). }
  destruct packets as [|p0 packets]; [done|].
  eexists. split; [reflexivity|]. cbn [latency jitter packet_loss bandwidth dns_delay].
  split; [done|]. split; [done|]. split; [done|]. split; [done|].
  split; [by rewrite Hlat|]. split; [by rewrite Hjit|].
  split; [by rewrite Hloss|]. split; [by rewrite Hbw|].
  repeat (constructor; [split; [done|apply py_round2_nearest]|]).
  constructor.
Qed.

End Scenario.

(** ** The statements on sample data *)

Example py_round_ties_to_even :
  map py_round [0.5; 1.5; 2.5; -0.5; -1.5; 2.4; -2.6; 85.012]%Q
  = [0; 2; 2; 0; -2; 2; -3; 85].
Proof. reflexivity. Qed.

Example strip_and_split :
  split_comma (strip "  1.5,,TCP, x ") = ["1.5"; ""; "TCP"; " x"]%string
  ∧ split_comma (strip sample_header_line) = TSHARK_fields.
Proof. split; reflexivity. Qed.

Example parse_sample_row :
  let p := @parse_packet sample_builtins 99 (split_comma sample_row)
             TSHARK_fields in
  p !! "frame.time_epoch"%string = Some (VFloat 12.5)
  ∧ p !! "frame.len"%string = Some (VInt 100)
  ∧ p !! "tcp.analysis.retransmission"%string = Some (VBool true)
  ∧ p !! "dns.time"%string = Some (VFloat 0)
  ∧ p !! "tcp.flags"%string = Some (VStr "0x0010")
  ∧ app_name p = "HTTPS"%string.
Proof. vm_compute. repeat split; reflexivity. Qed.

Example jittery_record :
  (λ m, (health_score m, stability m, congestion_level m, packet_count m,
         protocol_counts m, top_applications m))
    <$> @calculate_network_metrics sample_builtins 77 jittery
  = Some (57, "Very Unstable", "Moderate", 3, [("TCP", 2); ("DNS", 1)],
          ["HTTPS"; "DNS"])%string.
Proof. vm_compute. reflexivity. Qed.

Example jittery_numbers :
  (λ m, Qeq_bool (latency m) 30 && Qeq_bool (jitter m) 2
        && Qeq_bool (bandwidth m) 3.09 && Qeq_bool (packet_loss m) 33.33
        && Qeq_bool (dns_delay m) 12)
    <$> @calculate_network_metrics sample_builtins 77 jittery
  = Some true.
Proof. vm_compute. reflexivity. Qed.


Lemma scenario1_well_typed : Forall well_typed scenario1.
Proof. apply (bool_decide_unpack _). vm_compute. exact I. Defined.

Lemma jittery_well_typed : Forall well_typed jittery.
Proof. apply (bool_decide_unpack _). vm_compute. exact I. Defined.

Lemma health_score_in_range_witness :
  scenario1 ≠ []
  ∧ Forall well_typed scenario1
  ∧ ∃ m, @calculate_network_metrics sample_builtins 0 scenario1 = Some m
         ∧ 1 ≤ health_score m ≤ 100.
Proof.
  split; [done|]. split; [exact scenario1_well_typed|].
  destruct (@health_score_in_range sample_builtins 0 scenario1)
    as (m & Hm & Hrange & _); [done|exact scenario1_well_typed|].
  exists m. split; [exact Hm|exact Hrange].
Defined.

(** C2, as stated: on the ten packets of scenario 1 the record does not
    hold a bandwidth of 0.008, it holds the rounded 0.01. *)
Lemma scenario1_record_bandwidth :
  length scenario1 = 10%nat
  ∧ Forall (λ p, (get_float p "tcp.analysis.ack_rtt" 0 == 0)%Q
                 ∧ (get_float p "frame.time_delta" 0 == 0)%Q
                 ∧ get_bool p "tcp.analysis.retransmission" false = false
                 ∧ get_int p "frame.len" 0 = 100) scenario1
  ∧ max_list (timestamps scenario1) = Some (9 # 9)%Q
  ∧ min_list (timestamps scenario1) = Some (0 # 9)%Q
  ∧ ((9 # 9) - (0 # 9) == 1)%Q
  ∧ ¬ ∃ m, @calculate_network_metrics sample_builtins 0 scenario1 = Some m
           ∧ (latency m == 0)%Q ∧ (jitter m == 0)%Q
           ∧ (packet_loss m == 0)%Q ∧ (bandwidth m == 0.008)%Q.
Proof.
  split; [reflexivity|].
  split; [repeat constructor|].
  split; [reflexivity|]. split; [reflexivity|]. split; [reflexivity|].
  intros (m & Hm & _ & _ & _ & Hbw).
  vm_compute in Hm. injection Hm as <-. vm_compute in Hbw. discriminate.
Qed.

Lemma scenario1_metrics_witness :
  ∃ m, @calculate_network_metrics sample_builtins 0 scenario1 = Some m
       ∧ (raw_bandwidth scenario1 == 0.008)%Q
       ∧ (bandwidth m == 0.01)%Q
       ∧ (latency m == 0)%Q ∧ (jitter m == 0)%Q ∧ (packet_loss m == 0)%Q.
Proof.
  destruct (@scenario1_metrics sample_builtins 0 (9 # 9)%Q (0 # 9)%Q scenario1)
    as (m & Hm & _ & _ & _ & Hraw & Hlat & Hjit & Hloss & Hbw & _).
  - reflexivity.
  - exact scenario1_well_typed.
  - repeat constructor.
  - reflexivity.
  - reflexivity.
  - reflexivity.
  - exists m. repeat split; assumption.
Defined.

Lemma classifier_priority_witness :
  app_name (mk_packet 0 "TCP" 100 443 51000 0 0 false 0 0) = "HTTPS"%string.
Proof.
  destruct (classifier_priority (mk_packet 0 "TCP" 100 443 51000 0 0 false 0 0))
    as (_ & _ & _ & _ & _ & Hhttps).
  - apply (bool_decide_unpack _). vm_compute. exact I.
  - apply Hhttps; reflexivity.
Defined.

Lemma parse_packet_total_witness :
  @conversion_error sample_builtins (split_comma malformed_row) TSHARK_fields
  ∧ @parse_packet sample_builtins 99 (split_comma malformed_row) TSHARK_fields
    = default_packet 99.
Proof.
  assert (Herr : @conversion_error sample_builtins (split_comma malformed_row)
                   TSHARK_fields).
  { exists 4%nat, "frame.len"%string. split; [reflexivity|].
    split; [discriminate|]. right. split; [|reflexivity].
    apply (bool_decide_unpack _). vm_compute. exact I. }
  split; [exact Herr|].
  apply (@parse_packet_total sample_builtins 99 (split_comma malformed_row)
           TSHARK_fields).
  exact Herr.
Defined.

Lemma buffer_keeps_last_C_witness :
  (0 < 1)%nat
  ∧ fold_left (deque_append 2)
      [default_packet 1; default_packet 2; default_packet 3] []
    = [default_packet 2; default_packet 3].
Proof.
  split; [lia|].
  apply (buffer_keeps_last_C 2 1
           [default_packet 1; default_packet 2; default_packet 3]).
  - lia.
  - reflexivity.
Defined.


Lemma record_only_on_due_packet_witness :
  csv_rows (outcome_state (@loop_body sample_builtins after_header due_reading))
  ≠ csv_rows after_header
  ∧ (METRICS_INTERVAL <= clock due_reading - last_metrics_time after_header)%Q.
Proof.
  assert (Hrow : csv_rows (outcome_state
                   (@loop_body sample_builtins after_header due_reading))
                 ≠ csv_rows after_header).
  { vm_compute. discriminate. }
  split; [exact Hrow|].
  destruct (@record_only_on_due_packet sample_builtins after_header) as [Hdue _].
  destruct (Hdue due_reading Hrow) as (hdr & m & _ & _ & Hle & _).
  exact Hle.
Defined.

Lemma protocol_counts_total_witness :
  jittery ≠ []
  ∧ ∃ m, @calculate_network_metrics sample_builtins 0 jittery = Some m
         ∧ sumZ (map snd (protocol_counts m)) = packet_count m
         ∧ packet_count m = 3.
Proof.
  split; [discriminate|].
  destruct (@protocol_counts_total sample_builtins 0 jittery)
    as (m & Hm & Hsum & Hlen & _).
  - discriminate.
  - exact jittery_well_typed.
  - exists m. split; [exact Hm|]. split; [exact Hsum|exact Hlen].
Defined.

(** * Further properties of the code *)

(** ** Accumulating into a [defaultdict(int)] *)

Lemma dd_get_elem (d : list (string * Z)) (key : string) (v : Z) :
  NoDup (map fst d) → (key, v) ∈ d → dd_get d key = v.
Proof.
  induction d as [|[k w] d IH]; simpl; intros Hnd Hin.
  - by apply elem_of_nil in Hin.
  - apply NoDup_cons in Hnd as [Hk Hnd].
    apply elem_of_cons in Hin as [[= ? ?]|Hin]; simplify_eq.
    + by rewrite bool_decide_eq_true_2.
    + rewrite bool_decide_eq_false_2; [by apply IH|].
      intros ->. apply Hk.
      apply (list_elem_of_fmap_2 fst d (key, v)). done.
Qed.

Lemma dd_get_notin (d : list (string * Z)) (key : string) :
  key ∉ map fst d → dd_get d key = 0.
Proof.
  induction d as [|[k w] d IH]; simpl; intros Hk; [done|].
  apply not_elem_of_cons in Hk as [Hne Hk].
  rewrite bool_decide_eq_false_2 by done. by apply IH.
Qed.

Lemma dd_keys_elem (d : list (string * Z)) (key : string) :
  key ∈ map fst d → (key, dd_get d key) ∈ d.
Proof.
  induction d as [|[k w] d IH]; simpl; intros Hk.
  - by apply elem_of_nil in Hk.
  - destruct (bool_decide_reflect (k = key)) as [->|Hne].
    + apply list_elem_of_here.
    + apply list_elem_of_further, IH.
      apply elem_of_cons in Hk as [->|Hk]; done.
Qed.

(** A loop that adds [weight p] under [key p] for every [p]. *)
Lemma dd_fold {A} (key : A → string) (weight : A → Z) (xs : list A)
    (acc : list (string * Z)) :
  let result := fold_left (λ d x, dd_add d (key x) (weight x)) xs acc in
  sumZ (map snd result) = sumZ (map snd acc) + sumZ (map weight xs)
  ∧ (NoDup (map fst acc) → NoDup (map fst result))
  ∧ (∀ k, dd_get result k
          = dd_get acc k + sumZ (map weight (filter (λ x, key x = k) xs)))
  ∧ (∀ k, k ∈ map fst result ↔ k ∈ map fst acc ∨ ∃ x, x ∈ xs ∧ key x = k)
  ∧ (length result ≤ length acc + length xs)%nat.
Proof.
  revert acc. induction xs as [|x xs IH]; intros acc; simpl.
  - unfold sumZ. simpl. split; [lia|]. split; [done|]. split; [intros; lia|].
    split; [|lia]. intros k. split; [by left|].
    intros [?|(x & Hx & _)]; [done|]. by apply elem_of_nil in Hx.
  - destruct (IH (dd_add acc (key x) (weight x)))
      as (Hsum & Hnd & Hget & Hkeys & Hlen).
    split; [rewrite Hsum, dd_add_sum, sumZ_cons; lia|].
    split; [intros H; by apply Hnd, dd_add_NoDup|].
    split; [|split].
    + intros k. rewrite Hget, dd_add_get, filter_cons.
      destruct (bool_decide_reflect (key x = k)) as [Hk|Hk].
      * rewrite decide_True by done. cbn [map]. rewrite sumZ_cons. lia.
      * rewrite decide_False by done. lia.
    + intros k. rewrite Hkeys, dd_add_keys. split.
      * intros [Hk|(y & Hy & Hyk)].
        -- case_bool_decide; [by left|].
           apply elem_of_app in Hk as [Hk|Hk]; [by left|].
           apply list_elem_of_singleton in Hk. right. exists x.
           split; [apply list_elem_of_here|done].
        -- right. exists y. split; [by apply list_elem_of_further|done].
      * intros [Hk|(y & Hy & Hyk)].
        -- left. case_bool_decide; [done|]. apply elem_of_app. by left.
        -- apply elem_of_cons in Hy as [->|Hy]; [|right; by exists y].
           left. case_bool_decide; [by subst|].
           apply elem_of_app. right. subst. apply list_elem_of_here.
    + assert (length (dd_add acc (key x) (weight x)) ≤ S (length acc))%nat.
      { rewrite <- !(length_map fst), dd_add_keys.
        case_bool_decide; [lia|]. rewrite length_app. simpl. lia. }
      lia.
Qed.

(** ** The stable descending sort *)

Lemma insert_desc_perm (x : string * Z) (l : list (string * Z)) :
  insert_desc x l ≡ₚ x :: l.
Proof.
  induction l as [|y l IH]; simpl; [done|].
  destruct (x.2 <? y.2); [|done]. rewrite IH. apply Permutation_swap.
Qed.

Lemma sorted_desc_perm (xs : list (string * Z)) : sorted_desc xs ≡ₚ xs.
Proof.
  unfold sorted_desc. induction xs as [|x xs IH]; simpl; [done|].
  by rewrite insert_desc_perm, IH.
Qed.

Lemma insert_desc_sorted (x : string * Z) (l : list (string * Z)) :
  StronglySorted by_volume_desc l →
  StronglySorted by_volume_desc (insert_desc x l).
Proof.
  induction 1 as [|y l Hl IH Hy]; simpl.
  - repeat constructor.
  - destruct (Z.ltb_spec x.2 y.2) as [Hlt|Hge].
    + constructor; [done|]. rewrite insert_desc_perm.
      constructor; [unfold by_volume_desc; lia|done].
    + constructor; [by constructor|].
      constructor; [done|].
      eapply Forall_impl; [exact Hy|]. unfold by_volume_desc. intros z. lia.
Qed.

Lemma sorted_desc_sorted (xs : list (string * Z)) :
  StronglySorted by_volume_desc (sorted_desc xs).
Proof.
  unfold sorted_desc. induction xs as [|x xs IH]; simpl; [constructor|].
  by apply insert_desc_sorted.
Qed.

(** Entries of equal volume keep their relative order. *)
Lemma insert_desc_stable (v : Z) (x : string * Z) (l : list (string * Z)) :
  filter (λ e, e.2 = v) (insert_desc x l) = filter (λ e, e.2 = v) (x :: l).
Proof.
  induction l as [|y l IH]; simpl; [done|].
  destruct (Z.ltb_spec x.2 y.2) as [Hlt|Hge]; [|done].
  rewrite (filter_cons _ y), IH, !filter_cons.
  repeat case_decide; done || lia.
Qed.

Lemma sorted_desc_stable (v : Z) (xs : list (string * Z)) :
  filter (λ e, e.2 = v) (sorted_desc xs) = filter (λ e, e.2 = v) xs.
Proof.
  unfold sorted_desc. induction xs as [|x xs IH]; simpl; [done|].
  rewrite insert_desc_stable, !filter_cons, IH. done.
Qed.

Lemma sumZ_perm (xs ys : list Z) : xs ≡ₚ ys → sumZ xs = sumZ ys.
Proof.
  induction 1 as [|x xs ys _ IH|x y xs|xs ys zs _ IH1 _ IH2].
  - done.
  - rewrite !sumZ_cons. lia.
  - rewrite !sumZ_cons. lia.
  - congruence.
Qed.

(** ** identify_top_applications *)

Lemma identify_top_applications_unfold (packets : list packet) (top_n : nat) :
  identify_top_applications packets top_n
  = take top_n (sorted_desc (aggregate_applications packets)).
Proof. destruct packets; [by destruct top_n|done]. Qed.

Lemma aggregate_applications_spec (packets : list packet) :
  sumZ (map snd (aggregate_applications packets)) = total_bytes packets
  ∧ NoDup (map fst (aggregate_applications packets))
  ∧ (∀ label, dd_get (aggregate_applications packets) label
              = app_volume label packets)
  ∧ (∀ label, label ∈ map fst (aggregate_applications packets)
              ↔ ∃ p, p ∈ packets ∧ app_name p = label)
  ∧ (length (aggregate_applications packets) ≤ length packets)%nat.
Proof.
  destruct (dd_fold app_name (λ p, get_int p "frame.len" 0) packets [])
    as (Hsum & Hnd & Hget & Hkeys & Hlen).
  unfold aggregate_applications, total_bytes, app_volume.
  split; [by rewrite Hsum|]. split; [apply Hnd; constructor|].
  split; [intros label; by rewrite Hget|]. split; [|done].
  intros label. rewrite Hkeys. split; [|by right].
  intros [Hk|?]; [|done]. by apply elem_of_nil in Hk.
Qed.

Lemma sorted_aggregate_elem (packets : list packet) (label : string) (size : Z) :
  (label, size) ∈ sorted_desc (aggregate_applications packets)
  ↔ (∃ p, p ∈ packets ∧ app_name p = label) ∧ size = app_volume label packets.
Proof.
  destruct (aggregate_applications_spec packets) as (_ & Hnd & Hget & Hkeys & _).
  rewrite sorted_desc_perm. split.
  - intros Hin. split.
    + apply Hkeys. by apply (list_elem_of_fmap_2 fst _ (label, size)).
    + rewrite <- Hget. symmetry. by apply dd_get_elem.
  - intros [Hseen ->]. rewrite <- Hget. by apply dd_keys_elem, Hkeys.
Qed.

(** X1.  Every entry that [identify_top_applications] returns pairs a label
    that some packet of the input carries with the sum of the frame
    lengths of all packets carrying that label, and no label is returned
    twice. *)
Theorem top_applications_volumes (packets : list packet) (top_n : nat) :
  Forall well_typed packets →
  NoDup (map fst (identify_top_applications packets top_n))
  ∧ ∀ label size,
      (label, size) ∈ identify_top_applications packets top_n →
      size = app_volume label packets
      ∧ ∃ p, p ∈ packets ∧ app_name p = label.
Proof.
  intros _. rewrite identify_top_applications_unfold. split.
  - destruct (aggregate_applications_spec packets) as (_ & Hnd & _).
    apply (sublist_NoDup _
             (map fst (sorted_desc (aggregate_applications packets)))).
    + by rewrite sorted_desc_perm.
    + apply (fmap_sublist fst), sublist_take.
  - intros label size Hin. apply subseteq_take in Hin.
    apply sorted_aggregate_elem in Hin as [? ?]. done.
Qed.

(** X2.  [identify_top_applications] returns the [top_n] labels of largest
    volume, largest first: the result has [top_n] entries unless fewer
    labels occur, its volumes never increase along the list, and a label
    that occurs in the input but is left out has a volume no larger than
    that of any entry returned. *)
Theorem top_applications_are_the_largest (packets : list packet) (top_n : nat) :
  Forall well_typed packets →
  length (identify_top_applications packets top_n)
  = (top_n `min` length (aggregate_applications packets))%nat
  ∧ StronglySorted by_volume_desc (identify_top_applications packets top_n)
  ∧ ∀ p label entry,
      p ∈ packets → app_name p = label →
      label ∉ map fst (identify_top_applications packets top_n) →
      entry ∈ identify_top_applications packets top_n →
      app_volume label packets ≤ entry.2.
Proof.
  intros _. rewrite identify_top_applications_unfold.
  pose proof (sorted_desc_sorted (aggregate_applications packets)) as Hsorted.
  set (sorted := sorted_desc (aggregate_applications packets)) in *.
  split; [|split].
  - rewrite length_take. unfold sorted.
    by rewrite (Permutation_length (sorted_desc_perm _)).
  - rewrite <- (take_drop top_n sorted) in Hsorted.
    by apply StronglySorted_app_1_l in Hsorted.
  - intros p label entry Hp Hlabel Hout Hentry.
    assert (Hin : (label, app_volume label packets) ∈ sorted).
    { apply sorted_aggregate_elem. split; [by exists p|done]. }
    rewrite <- (take_drop top_n sorted) in Hin, Hsorted.
    apply elem_of_app in Hin as [Hin|Hin].
    + destruct Hout.
      by apply (list_elem_of_fmap_2 fst _ (label, app_volume label packets)).
    + apply (StronglySorted_app_1_elem_of by_volume_desc _ _ entry
               (label, app_volume label packets) Hsorted Hentry Hin).
Qed.

(** X3.  The volumes that [identify_top_applications] accumulates account
    for every byte of the input: over all labels they add up to the sum of
    the frame lengths, so a [top_n] of at least the number of packets
    returns entries whose volumes add up to that sum. *)
Theorem top_applications_conserve_bytes (packets : list packet) (top_n : nat) :
  Forall well_typed packets →
  (length packets ≤ top_n)%nat →
  sumZ (map snd (identify_top_applications packets top_n))
  = total_bytes packets.
Proof.
  intros _ Hn. rewrite identify_top_applications_unfold.
  destruct (aggregate_applications_spec packets) as (Hsum & _ & _ & _ & Hlen).
  rewrite take_ge.
  - rewrite <- Hsum. apply sumZ_perm, fmap_Permutation, sorted_desc_perm.
  - rewrite (Permutation_length (sorted_desc_perm _)). lia.
Qed.

(** X4.  Ties are broken by first occurrence: labels enter the dict in the
    order in which they are first seen, and the entries of one and the
    same volume that [identify_top_applications] returns are, in the same
    order, the first of the dict's entries of that volume. *)
Theorem top_applications_ties_first_seen (packets : list packet) (p : packet)
    (top_n : nat) (v : Z) :
  Forall well_typed (packets ++ [p]) →
  map fst (aggregate_applications (packets ++ [p]))
  = (if bool_decide (app_name p ∈ map fst (aggregate_applications packets))
     then map fst (aggregate_applications packets)
     else map fst (aggregate_applications packets) ++ [app_name p])
  ∧ filter (λ e, e.2 = v) (identify_top_applications packets top_n)
    `prefix_of` filter (λ e, e.2 = v) (aggregate_applications packets).
Proof.
  intros _. split.
  - unfold aggregate_applications. rewrite fold_left_app. simpl.
    apply dd_add_keys.
  - rewrite identify_top_applications_unfold.
    rewrite <- (sorted_desc_stable v (aggregate_applications packets)).
    rewrite <- (take_drop top_n (sorted_desc (aggregate_applications packets)))
      at 2.
    rewrite filter_app. by eexists.
Qed.

(** The record of a snapshot, field by field. *)
Lemma calculate_network_metrics_Some `{!Builtins} (now : Q)
    (packets : list packet) (m : MetricsRecord) :
  calculate_network_metrics now packets = Some m →
  packets ≠ []
  ∧ m = {| timestamp := now;
           latency := py_round2 (raw_latency packets);
           jitter := py_round2 (raw_jitter packets);
           bandwidth := py_round2 (raw_bandwidth packets);
           packet_loss := py_round2 (raw_packet_loss packets);
           dns_delay := py_round2 (raw_dns_delay packets);
           health_score :=
             health_of (raw_latency packets) (raw_jitter packets)
               (raw_packet_loss packets) (raw_bandwidth packets)
               (raw_dns_delay packets);
           stability :=
             stability_of (raw_jitter packets) (raw_packet_loss packets);
           congestion_level :=
             congestion_of (avg_window packets) (raw_bandwidth packets);
           packet_count := Z.of_nat (length packets);
           protocol_counts := count_protocols packets;
           top_applications :=
             map fst (take 3 (identify_top_applications packets 5)) |}.
Proof. destruct packets as [|p packets]; [done|]. intros [= <-]. done. Qed.

(** X5.  The [top_applications] of a record are the labels of the three
    largest applications of the snapshot, largest first: at most three
    labels, no label twice, each carried by a packet of the snapshot. *)
Theorem record_top_applications `{!Builtins} (now : Q) (packets : list packet)
    (m : MetricsRecord) :
  Forall well_typed packets →
  calculate_network_metrics now packets = Some m →
  top_applications m = map fst (identify_top_applications packets 3)
  ∧ (length (top_applications m) ≤ 3)%nat
  ∧ NoDup (top_applications m)
  ∧ ∀ label, label ∈ top_applications m →
             ∃ p, p ∈ packets ∧ app_name p = label.
Proof.
  intros _ Hm. apply calculate_network_metrics_Some in Hm as [_ ->].
  cbn [top_applications]. set (ps := packets).
  destruct (aggregate_applications_spec ps) as (_ & Hnd & _ & Hkeys & _).
  assert (Htake : take 3 (identify_top_applications ps 5)
                  = identify_top_applications ps 3).
  { rewrite !identify_top_applications_unfold. by rewrite take_take. }
  rewrite Htake, identify_top_applications_unfold.
  assert (Hsub : map fst (take 3 (sorted_desc (aggregate_applications ps)))
                 `sublist_of` map fst (sorted_desc (aggregate_applications ps)))
    by apply (fmap_sublist fst), sublist_take.
  assert (Hnd' : NoDup (map fst (sorted_desc (aggregate_applications ps))))
    by (by rewrite sorted_desc_perm).
  split; [done|]. split; [|split].
  - rewrite length_map, length_take. lia.
  - apply (sublist_NoDup _ _ Hnd'), Hsub.
  - intros label Hlabel. apply Hkeys.
    rewrite <- (sorted_desc_perm (aggregate_applications ps)).
    by apply (elem_of_sublist _ _ _ Hlabel).
Qed.

(** ** Rounding, maxima and averages *)

Lemma py_round_mono (x y : Q) : (x <= y)%Q → py_round x ≤ py_round y.
Proof.
  intros Hxy. destruct (Z_le_gt_dec (py_round x) (py_round y)) as [|Hgt]; [done|].
  exfalso.
  pose proof (py_round_nearest x) as [_ Hx].
  pose proof (py_round_nearest y) as [Hy _].
  assert (Hz : (inject_Z (py_round y) + 1 <= inject_Z (py_round x))%Q).
  { change 1%Q with (inject_Z 1). rewrite <- inject_Z_plus, <- Zle_Qle. lia. }
  assert (Heq : (x == y)%Q) by (apply Qle_antisym; lra).
  rewrite (py_round_proper x y Heq) in Hgt. lia.
Qed.

Lemma py_round2_mono (x y : Q) : (x <= y)%Q → (py_round2 x <= py_round2 y)%Q.
Proof.
  intros Hxy. unfold py_round2.
  assert (Hz : py_round (x * 100) ≤ py_round (y * 100))
    by (apply py_round_mono; lra).
  rewrite Zle_Qle in Hz. apply Qle_shift_div_l; [done|].
  assert (Hq : (inject_Z (py_round (x * 100)) / 100 * 100
                == inject_Z (py_round (x * 100)))%Q) by field.
  by rewrite Hq.
Qed.

Lemma py_max_cases (a b : Q) :
  (a <= py_max a b ∧ b <= py_max a b)%Q
  ∧ ((b <= a)%Q ∧ py_max a b = a ∨ (a < b)%Q ∧ py_max a b = b).
Proof.
  unfold py_max, Qgtb. destruct (Qltb a b) eqn:E.
  - apply Qltb_lt in E. split; [lra|]. right. done.
  - apply Qltb_ge in E. split; [lra|]. left. done.
Qed.

Lemma py_min_cases (a b : Q) :
  (py_min a b <= a ∧ py_min a b <= b)%Q
  ∧ ((a <= b)%Q ∧ py_min a b = a ∨ (b < a)%Q ∧ py_min a b = b).
Proof.
  unfold py_min. destruct (Qltb b a) eqn:E.
  - apply Qltb_lt in E. split; [lra|]. right. done.
  - apply Qltb_ge in E. split; [lra|]. left. done.
Qed.

Lemma py_max_mono (a b b' : Q) : (b <= b')%Q → (py_max a b <= py_max a b')%Q.
Proof.
  intros Hb.
  destruct (py_max_cases a b) as [_ [[? ->]|[? ->]]],
           (py_max_cases a b') as [_ [[? ->]|[? ->]]]; lra.
Qed.

Lemma py_min_mono (a b b' : Q) : (b <= b')%Q → (py_min a b <= py_min a b')%Q.
Proof.
  intros Hb.
  destruct (py_min_cases a b) as [_ [[? ->]|[? ->]]],
           (py_min_cases a b') as [_ [[? ->]|[? ->]]]; lra.
Qed.

Lemma fold_py_max_bounds (xs : list Q) (a : Q) :
  let hi := fold_left py_max xs a in
  (a <= hi)%Q ∧ Forall (λ x, x <= hi)%Q xs ∧ (hi = a ∨ hi ∈ xs).
Proof.
  revert a. induction xs as [|x xs IH]; intros a; simpl.
  - split; [lra|]. split; [constructor|by left].
  - destruct (IH (py_max a x)) as (Hge & Hall & Hmem).
    destruct (py_max_cases a x) as [[Ha Hx] Hcase].
    split; [lra|]. split; [constructor; [lra|done]|].
    destruct Hmem as [Hm|Hm]; [|right; by apply list_elem_of_further].
    rewrite Hm. destruct Hcase as [[_ ->]|[_ ->]]; [by left|].
    right. apply list_elem_of_here.
Qed.

Lemma fold_py_min_bounds (xs : list Q) (a : Q) :
  let lo := fold_left py_min xs a in
  (lo <= a)%Q ∧ Forall (λ x, lo <= x)%Q xs ∧ (lo = a ∨ lo ∈ xs).
Proof.
  revert a. induction xs as [|x xs IH]; intros a; simpl.
  - split; [lra|]. split; [constructor|by left].
  - destruct (IH (py_min a x)) as (Hge & Hall & Hmem).
    destruct (py_min_cases a x) as [[Ha Hx] Hcase].
    split; [lra|]. split; [constructor; [lra|done]|].
    destruct Hmem as [Hm|Hm]; [|right; by apply list_elem_of_further].
    rewrite Hm. destruct Hcase as [[_ ->]|[_ ->]]; [by left|].
    right. apply list_elem_of_here.
Qed.

(** [max] and [min] of a non-empty list are elements of it that bound
    all the others. *)
Lemma max_min_list_spec (xs : list Q) :
  xs ≠ [] →
  ∃ hi lo, max_list xs = Some hi ∧ min_list xs = Some lo
           ∧ hi ∈ xs ∧ lo ∈ xs
           ∧ Forall (λ x, lo <= x <= hi)%Q xs.
Proof.
  destruct xs as [|x xs]; [done|]. intros _. simpl.
  destruct (fold_py_max_bounds xs x) as (Hhi & Hall_hi & Hmem_hi).
  destruct (fold_py_min_bounds xs x) as (Hlo & Hall_lo & Hmem_lo).
  eexists _, _. split; [done|]. split; [done|].
  split; [|split].
  - destruct Hmem_hi as [->|?]; [apply list_elem_of_here|].
    by apply list_elem_of_further.
  - destruct Hmem_lo as [->|?]; [apply list_elem_of_here|].
    by apply list_elem_of_further.
  - constructor; [lra|].
    apply Forall_and. split; done.
Qed.

Lemma sumQ_bounds (lo hi : Q) (xs : list Q) :
  Forall (λ x, lo <= x <= hi)%Q xs →
  (inject_Z (Z.of_nat (length xs)) * lo <= sumQ xs
   <= inject_Z (Z.of_nat (length xs)) * hi)%Q.
Proof.
  induction 1 as [|x xs Hx _ IH].
  - unfold sumQ. simpl. change (inject_Z (Z.of_nat 0)) with 0%Q. lra.
  - cbn [length]. rewrite sumQ_cons, inject_nat_succ. lra.
Qed.

Lemma calculate_average_bounds (lo hi : Q) (values : list Q) :
  values ≠ [] →
  Forall (λ x, lo <= x <= hi)%Q values →
  (lo <= calculate_average values <= hi)%Q.
Proof.
  intros Hne Hall. rewrite calculate_average_mean by done. unfold mean.
  pose proof (sumQ_bounds lo hi values Hall) as [H1 H2].
  assert (Hn : (0 < inject_Z (Z.of_nat (length values)))%Q).
  { apply inject_nat_pos. destruct values; [done|simpl; lia]. }
  split.
  - apply Qle_shift_div_l; [done|]. lra.
  - apply Qle_shift_div_r; [done|]. lra.
Qed.

(** ** The metrics before rounding *)

Lemma positive_scaled_positive (xs : list Q) :
  Forall (λ x, 0 < x)%Q (positive_scaled xs).
Proof.
  unfold positive_scaled. apply Forall_forall. intros y Hy.
  apply list_elem_of_fmap in Hy as (x & -> & Hx).
  apply list_elem_of_filter in Hx as [Hx _]. lra.
Qed.

(** The average of a non-empty list of positive numbers is positive. *)
Lemma calculate_average_positive (values : list Q) :
  values ≠ [] → Forall (λ x, 0 < x)%Q values →
  (0 < calculate_average values)%Q.
Proof.
  intros Hne Hpos.
  destruct (max_min_list_spec values Hne) as (hi & lo & _ & _ & _ & Hlo & Hb).
  assert (Hlo_pos : (0 < lo)%Q).
  { rewrite Forall_forall in Hpos. by apply Hpos. }
  pose proof (calculate_average_bounds lo hi values Hne Hb). lra.
Qed.

Lemma average_or_zero (values : list Q) :
  Forall (λ x, 0 < x)%Q values →
  let result :=
    match values with [] => 0%Q | x :: xs => calculate_average (x :: xs) end in
  (0 <= result)%Q ∧ ((result == 0)%Q ↔ values = []).
Proof.
  intros Hpos. destruct values as [|x xs]; [done|].
  pose proof (calculate_average_positive (x :: xs) ltac:(done) Hpos) as Hgt.
  cbv zeta. split; [lra|]. split; [|done]. intros Hz. lra.
Qed.

Lemma dns_delay_values_nil (packets : list packet) :
  dns_delay_values packets = []
  ↔ Forall (λ p, get_str p "_ws.col.protocol" "" = "DNS"%string →
                 ¬ (0 < get_float p "dns.time" 0)%Q) packets.
Proof.
  unfold dns_delay_values.
  induction packets as [|p ps IH]; [split; [constructor|done]|].
  rewrite Forall_cons, filter_cons. case_decide as Hp.
  - rewrite filter_cons. case_decide as Hpos.
    + apply Qltb_lt in Hpos. split; [done|]. intros [Hno _].
      by destruct (Hno Hp).
    + rewrite IH. split; [|tauto]. intros Hps. split; [|done].
      intros _ Hgt. apply Hpos. by apply Qltb_lt.
  - rewrite IH. tauto.
Qed.

(** X7.  The latency and the DNS delay are never negative, and each is 0
    exactly when no sample qualifies: the latency when no packet has a
    positive round-trip estimate, the DNS delay when no packet labelled
    ["DNS"] has a positive DNS time.  In particular a snapshot without DNS
    packets has DNS delay 0 whatever the [dns.time] fields hold. *)
Theorem latency_and_dns_delay_zero_iff (packets : list packet) :
  Forall well_typed packets →
  (0 <= raw_latency packets)%Q
  ∧ ((raw_latency packets == 0)%Q ↔ qualifying_rtts packets = [])
  ∧ (0 <= raw_dns_delay packets)%Q
  ∧ ((raw_dns_delay packets == 0)%Q
     ↔ Forall (λ p, get_str p "_ws.col.protocol" "" = "DNS"%string →
                    ¬ (0 < get_float p "dns.time" 0)%Q) packets)
  ∧ (Forall (λ p, get_str p "_ws.col.protocol" "" ≠ "DNS"%string) packets →
     raw_dns_delay packets = 0%Q).
Proof.
  intros _.
  assert (Hrtt : rtt_values packets = qualifying_rtts packets)
    by apply positive_scaled_filter.
  assert (Hdns : dns_delay_values packets
                 = positive_scaled
                     (map (λ p, get_float p "dns.time" 0%Q)
                        (filter (λ p, get_str p "_ws.col.protocol" ""
                                      = "DNS"%string) packets)))
    by apply positive_scaled_filter.
  pose proof (dns_delay_values_nil packets) as Hnone.
  unfold raw_latency, raw_dns_delay. rewrite Hrtt.
  destruct (average_or_zero (qualifying_rtts packets)
              (positive_scaled_positive _)) as [Hl0 Hlz].
  destruct (average_or_zero (dns_delay_values packets)) as [Hd0 Hdz].
  { rewrite Hdns. apply positive_scaled_positive. }
  split; [done|]. split; [done|]. split; [done|].
  split; [by rewrite Hdz, Hnone|].
  intros Hno. rewrite (proj2 Hnone); [done|].
  eapply Forall_impl; [exact Hno|]. simpl. intros p Hp Hq. done.
Qed.

Lemma filter_all {A} (P : A → Prop) `{!∀ x, Decision (P x)} (l : list A) :
  Forall P l → filter P l = l.
Proof.
  induction 1 as [|x l Hx _ IH]; [done|].
  by rewrite filter_cons_True, IH.
Qed.

Lemma retransmissions_count (packets : list packet) :
  retransmissions packets
  = Z.of_nat (length (filter (λ p, get_bool p "tcp.analysis.retransmission"
                                     false = true) packets)).
Proof.
  unfold retransmissions.
  induction (filter _ packets) as [|p ps IH]; [done|].
  cbn [map length]. rewrite sumZ_cons, IH. lia.
Qed.

Lemma raw_packet_loss_bounds (packets : list packet) :
  (0 <= raw_packet_loss packets <= 100)%Q.
Proof.
  unfold raw_packet_loss. destruct packets as [|p0 ps]; [lra|].
  set (packets := p0 :: ps). rewrite retransmissions_count.
  pose proof (length_filter
                (λ p, get_bool p "tcp.analysis.retransmission" false = true)
                packets) as Hle.
  set (k := length (filter _ packets)) in *.
  assert (Hn : (0 < inject_Z (Z.of_nat (length packets)))%Q)
    by (apply inject_nat_pos; simpl; lia).
  assert (Hk0 : (0 <= inject_Z (Z.of_nat k))%Q)
    by (change 0%Q with (inject_Z 0); rewrite <- Zle_Qle; lia).
  assert (Hkn : (inject_Z (Z.of_nat k) <= inject_Z (Z.of_nat (length packets)))%Q)
    by (rewrite <- Zle_Qle; lia).
  assert (Hq : (0 <= inject_Z (Z.of_nat k) / inject_Z (Z.of_nat (length packets))
                <= 1)%Q).
  { split.
    - apply Qle_shift_div_l; [done|]. lra.
    - apply Qle_shift_div_r; [done|]. lra. }
  lra.
Qed.

(** X8.  The packet loss is a percentage: 100 times the share of packets
    flagged as retransmissions, between 0 and 100, 0 when no packet is
    flagged and 100 when all are; the value stored in the record, rounded
    to two decimals, stays between 0 and 100. *)
Theorem packet_loss_is_percentage `{!Builtins} (now : Q)
    (packets : list packet) (m : MetricsRecord) :
  Forall well_typed packets →
  calculate_network_metrics now packets = Some m →
  (0 <= raw_packet_loss packets <= 100)%Q
  ∧ (0 <= packet_loss m <= 100)%Q
  ∧ (Forall (λ p, get_bool p "tcp.analysis.retransmission" false = false)
       packets → (raw_packet_loss packets == 0)%Q ∧ (packet_loss m == 0)%Q)
  ∧ (Forall (λ p, get_bool p "tcp.analysis.retransmission" false = true)
       packets → (raw_packet_loss packets == 100)%Q ∧ (packet_loss m == 100)%Q).
Proof.
  intros _ Hm. apply calculate_network_metrics_Some in Hm as [Hne ->].
  cbn [packet_loss].
  pose proof (raw_packet_loss_bounds packets) as [Hlo Hhi].
  assert (Hround : ∀ x y : Q, (x == y)%Q → py_round2 x = py_round2 y)
    by (intros x y Hxy; by apply py_round2_proper).
  split; [done|]. split; [|split].
  - pose proof (py_round2_mono _ _ Hlo) as Hlo'.
    pose proof (py_round2_mono _ _ Hhi) as Hhi'.
    assert (H0 : (py_round2 0 == 0)%Q) by reflexivity.
    assert (H100 : (py_round2 100 == 100)%Q) by reflexivity.
    lra.
  - intros Hnone.
    assert (Hz : (raw_packet_loss packets == 0)%Q).
    { unfold raw_packet_loss. destruct packets as [|p0 ps]; [done|].
      rewrite retransmissions_none by done.
      unfold Qdiv. change (inject_Z 0) with 0%Q. ring. }
    split; [done|]. by rewrite (Hround _ _ Hz).
  - intros Hall.
    assert (Hz : (raw_packet_loss packets == 100)%Q).
    { unfold raw_packet_loss. destruct packets as [|p0 ps]; [done|].
      rewrite retransmissions_count.
      rewrite filter_all by done.
      field. intros Hz.
      pose proof (inject_nat_pos (length (p0 :: ps)) ltac:(simpl; lia)). lra. }
    split; [done|]. by rewrite (Hround _ _ Hz).
Qed.

Lemma sumZ_nonneg (xs : list Z) : Forall (λ x, 0 ≤ x) xs → 0 ≤ sumZ xs.
Proof.
  induction 1 as [|x xs Hx _ IH]; [done|]. rewrite sumZ_cons. lia.
Qed.

(** X9.  The time span of a non-empty snapshot, latest minus earliest
    capture time, is never negative.  When it is 0 (in particular for a
    single packet) the bandwidth is 0 and nothing is divided; otherwise
    the bandwidth is the bits of the snapshot over the span in
    microseconds, and it is not negative when no frame length is. *)
Theorem bandwidth_over_time_span (packets : list packet) :
  Forall well_typed packets →
  packets ≠ [] →
  ∃ hi lo,
    max_list (timestamps packets) = Some hi
    ∧ min_list (timestamps packets) = Some lo
    ∧ (lo <= hi)%Q
    ∧ ((hi - lo == 0)%Q → raw_bandwidth packets = 0%Q)
    ∧ ((0 < hi - lo)%Q →
       raw_bandwidth packets
       = (inject_Z (total_bytes packets * 8) / ((hi - lo) * 1000000))%Q)
    ∧ (Forall (λ p, 0 ≤ get_int p "frame.len" 0) packets →
       (0 <= raw_bandwidth packets)%Q)
    ∧ (length packets = 1%nat → raw_bandwidth packets = 0%Q).
Proof.
  intros _ Hne.
  assert (Hts : timestamps packets ≠ []) by (by destruct packets).
  destruct (max_min_list_spec _ Hts) as (hi & lo & Hmax & Hmin & Hhi & Hlo & Hb).
  exists hi, lo. split; [done|]. split; [done|].
  assert (Hle : (lo <= hi)%Q).
  { rewrite Forall_forall in Hb. destruct (Hb hi Hhi). done. }
  split; [done|]. unfold raw_bandwidth. rewrite Hmax, Hmin.
  assert (Hzero : (hi - lo == 0)%Q → Qgtb (hi - lo) 0 = false).
  { intros Hz. apply Qltb_ge. lra. }
  split; [intros Hz; by rewrite Hzero|].
  split; [intros Hpos; apply Qltb_lt in Hpos; unfold Qgtb; by rewrite Hpos|].
  split.
  - intros Hlen. destruct (Qgtb (hi - lo) 0) eqn:E; [|lra].
    apply Qltb_lt in E.
    assert (Hbytes : 0 ≤ total_bytes packets * 8).
    { unfold total_bytes.
      pose proof (sumZ_nonneg (map (λ p, get_int p "frame.len" 0) packets)) as H.
      rewrite Forall_map in H. specialize (H Hlen). lia. }
    rewrite Zle_Qle in Hbytes. change (inject_Z 0) with 0%Q in Hbytes.
    apply Qle_shift_div_l; [lra|]. lra.
  - intros Hone. destruct packets as [|p [|q ps]]; try done.
    simpl in Hmax, Hmin. injection Hmax as <-. injection Hmin as <-.
    rewrite Hzero; [done|]. lra.
Qed.

(** ** The standard deviation *)

Lemma sumQ_nonneg (xs : list Q) : Forall (λ x, 0 <= x)%Q xs → (0 <= sumQ xs)%Q.
Proof.
  induction 1 as [|x xs Hx _ IH]; [done|]. rewrite sumQ_cons. lra.
Qed.

Lemma sumQ_zero_iff (xs : list Q) :
  Forall (λ x, 0 <= x)%Q xs →
  (sumQ xs == 0)%Q ↔ Forall (λ x, x == 0)%Q xs.
Proof.
  induction 1 as [|x xs Hx Hxs IH]; [split; [constructor|done]|].
  pose proof (sumQ_nonneg xs Hxs) as Hs.
  rewrite sumQ_cons, Forall_cons, <- IH. split; [|intros [? ?]; lra].
  intros Hz. split; lra.
Qed.

Lemma squared_diff_nonneg (c x : Q) : (0 <= (x - c) ^ 2)%Q.
Proof.
  simpl. set (d := (x - c)%Q). destruct (Qlt_le_dec d 0) as [Hneg|Hpos].
  - assert (Hd : (d * d == (- d) * (- d))%Q) by ring.
    rewrite Hd. apply Qmult_le_0_compat; lra.
  - apply Qmult_le_0_compat; lra.
Qed.

Lemma squared_diff_zero (c x : Q) : ((x - c) ^ 2 == 0 ↔ x == c)%Q.
Proof.
  simpl. split; [|intros ->; ring].
  intros Hz. apply Qmult_integral in Hz. destruct Hz; lra.
Qed.

Lemma sample_variance_nonneg (xs : list Q) :
  (2 ≤ length xs)%nat →
  (0 <= sample_variance xs)%Q
  ∧ ((sample_variance xs == 0)%Q ↔ Forall (λ x, x == mean xs)%Q xs).
Proof.
  intros Hlen. unfold sample_variance.
  pose proof (inject_nat_gt1 _ Hlen) as Hn.
  set (n := inject_Z (Z.of_nat (length xs))) in *.
  set (sq := map (λ x, (x - mean xs) ^ 2)%Q xs).
  assert (Hsq : Forall (λ y, 0 <= y)%Q sq).
  { apply Forall_map, Forall_forall. intros x _. apply squared_diff_nonneg. }
  pose proof (sumQ_nonneg sq Hsq) as Hs.
  split.
  - apply Qle_shift_div_l; lra.
  - transitivity (sumQ sq == 0)%Q.
    + split; intros Hz.
      * assert (Hd : (sumQ sq == sumQ sq / (n - 1) * (n - 1))%Q)
          by (field; lra).
        rewrite Hd, Hz. ring.
      * rewrite Hz. field. lra.
    + rewrite (sumQ_zero_iff sq Hsq). unfold sq. rewrite Forall_map.
      apply Forall_proper; [|done]. intros x. apply squared_diff_zero.
Qed.

(** ** The health score and the two classifications *)

Lemma py_max_floor (a b : Q) : (b <= a)%Q → py_max a b = a.
Proof.
  intros Hle. destruct (py_max_cases a b) as [_ [[_ ->]|[Hlt _]]]; [done|lra].
Qed.

Lemma py_min_cap (a b : Q) : (a <= b)%Q → py_min a b = a.
Proof.
  intros Hle. destruct (py_min_cases a b) as [_ [[_ ->]|[Hlt _]]]; [done|lra].
Qed.

Lemma half_mono (x y : Q) : (x <= y)%Q → (x / 2 <= y / 2)%Q.
Proof.
  intros Hxy. apply Qle_shift_div_l; [done|].
  assert (Hx : (x / 2 * 2 == x)%Q) by field. by rewrite Hx.
Qed.

(** X11.  The health score is monotone in every metric: a snapshot with
    no lower latency, jitter, packet loss and DNS delay and no higher
    bandwidth than another never gets a higher score. *)
Theorem health_score_monotone (latency latency' jitter jitter' loss loss'
    bandwidth bandwidth' dns dns' : Q) :
  (latency <= latency')%Q →
  (jitter <= jitter')%Q →
  (loss <= loss')%Q →
  (bandwidth' <= bandwidth)%Q →
  (dns <= dns')%Q →
  health_of latency' jitter' loss' bandwidth' dns'
  ≤ health_of latency jitter loss bandwidth dns.
Proof.
  intros Hl Hj Hp Hb Hd. unfold health_of.
  apply Z.max_le_compat_l, Z.min_le_compat_l, py_round_mono.
  pose proof (half_mono _ _ Hl) as Hhalf.
  pose proof (py_max_mono 0 (100 - latency' / 2) (100 - latency / 2)
                ltac:(lra)).
  pose proof (py_max_mono 0 (100 - jitter' * 2) (100 - jitter * 2) ltac:(lra)).
  pose proof (py_max_mono 0 (100 - loss' * 10) (100 - loss * 10) ltac:(lra)).
  pose proof (py_min_mono 100 (bandwidth' * 10) (bandwidth * 10) ltac:(lra)).
  pose proof (py_max_mono 0 (100 - dns' * 2) (100 - dns * 2) ltac:(lra)).
  lra.
Qed.

(** X12.  Each metric stops counting beyond a threshold: a latency of 200
    ms or more, a jitter of 50 ms or more, a packet loss of 10 percent or
    more and a DNS delay of 50 ms or more each score like the threshold
    itself, and so does a bandwidth of 10 Mbps or more.  The best score,
    100, is that of no latency, jitter, loss and DNS delay at 10 Mbps;
    the worst, 1, is that of all thresholds reached with no bandwidth. *)
Theorem health_score_saturates (latency jitter loss bandwidth dns : Q) :
  ((200 <= latency)%Q →
   health_of latency jitter loss bandwidth dns
   = health_of 200 jitter loss bandwidth dns)
  ∧ ((50 <= jitter)%Q →
     health_of latency jitter loss bandwidth dns
     = health_of latency 50 loss bandwidth dns)
  ∧ ((10 <= loss)%Q →
     health_of latency jitter loss bandwidth dns
     = health_of latency jitter 10 bandwidth dns)
  ∧ ((10 <= bandwidth)%Q →
     health_of latency jitter loss bandwidth dns
     = health_of latency jitter loss 10 dns)
  ∧ ((50 <= dns)%Q →
     health_of latency jitter loss bandwidth dns
     = health_of latency jitter loss bandwidth 50)
  ∧ health_of 0 0 0 10 0 = 100
  ∧ health_of 200 50 10 0 50 = 1.
Proof.
  unfold health_of. repeat split; try reflexivity; intros Hge.
  - pose proof (half_mono _ _ Hge) as Hhalf.
    assert (H100 : (200 / 2 == 100)%Q) by reflexivity.
    rewrite (py_max_floor 0 (100 - latency / 2)) by lra.
    rewrite (py_max_floor 0 (100 - 200 / 2)) by lra. done.
  - rewrite (py_max_floor 0 (100 - jitter * 2)) by lra.
    rewrite (py_max_floor 0 (100 - 50 * 2)) by lra. done.
  - rewrite (py_max_floor 0 (100 - loss * 10)) by lra.
    rewrite (py_max_floor 0 (100 - 10 * 10)) by lra. done.
  - rewrite (py_min_cap 100 (bandwidth * 10)) by lra.
    rewrite (py_min_cap 100 (10 * 10)) by lra. done.
  - rewrite (py_max_floor 0 (100 - dns * 2)) by lra.
    rewrite (py_max_floor 0 (100 - 50 * 2)) by lra. done.
Qed.

(** X13.  The two classifications are monotone and three-valued: less
    jitter and less packet loss never give a worse stability class, a
    larger average window and more bandwidth never give a worse
    congestion level, and no other label than the three of each is ever
    produced. *)
Theorem classifications_monotone (jitter jitter' loss loss' window window'
    bandwidth bandwidth' : Q) :
  (jitter <= jitter')%Q →
  (loss <= loss')%Q →
  (window <= window')%Q →
  (bandwidth <= bandwidth')%Q →
  (stability_rank (stability_of jitter loss)
   ≤ stability_rank (stability_of jitter' loss'))%nat
  ∧ (congestion_rank (congestion_of window' bandwidth')
     ≤ congestion_rank (congestion_of window bandwidth))%nat
  ∧ stability_of jitter loss ∈ ["Stable"; "Unstable"; "Very Unstable"]%string
  ∧ congestion_of window bandwidth ∈ ["Low"; "Moderate"; "High"]%string.
Proof.
  intros Hj Hl Hw Hb. unfold stability_of, congestion_of, Qgtb.
  repeat split.
  - destruct (Qltb jitter 10) eqn:E1, (Qltb loss 1) eqn:E2,
      (Qltb jitter 30) eqn:E3, (Qltb loss 5) eqn:E4,
      (Qltb jitter' 10) eqn:E5, (Qltb loss' 1) eqn:E6,
      (Qltb jitter' 30) eqn:E7, (Qltb loss' 5) eqn:E8;
      vm_compute; try lia; exfalso;
      repeat match goal with
             | H : Qltb _ _ = true |- _ => apply Qltb_lt in H
             | H : Qltb _ _ = false |- _ => apply Qltb_ge in H
             end; lra.
  - destruct (Qltb 8000 window) eqn:E1, (Qltb 5 bandwidth) eqn:E2,
      (Qltb 4000 window) eqn:E3, (Qltb 2 bandwidth) eqn:E4,
      (Qltb 8000 window') eqn:E5, (Qltb 5 bandwidth') eqn:E6,
      (Qltb 4000 window') eqn:E7, (Qltb 2 bandwidth') eqn:E8;
      vm_compute; try lia; exfalso;
      repeat match goal with
             | H : Qltb _ _ = true |- _ => apply Qltb_lt in H
             | H : Qltb _ _ = false |- _ => apply Qltb_ge in H
             end; lra.
  - destruct (_ && _); [set_solver|]. destruct (_ && _); set_solver.
  - destruct (_ && _); [set_solver|]. destruct (_ || _); set_solver.
Qed.

(** ** The parser on short, long and sparse rows *)

Lemma raw_at_app_l (fields extra : list string) (i : nat) :
  (i < length fields)%nat → raw_at (fields ++ extra) i = raw_at fields i.
Proof. intros Hi. unfold raw_at. by rewrite lookup_app_l. Qed.

Lemma raw_at_pad (fields : list string) (k i : nat) :
  raw_at (fields ++ replicate k ""%string) i = raw_at fields i.
Proof.
  unfold raw_at. destruct (decide (i < length fields)%nat) as [Hi|Hi].
  - by rewrite lookup_app_l.
  - rewrite lookup_app_r by lia. rewrite (lookup_ge_None_2 fields) by lia.
    destruct (replicate k ""%string !! (i - length fields)%nat) as [s|] eqn:E;
      [|done].
    apply lookup_replicate in E as [-> _]. done.
Qed.

Section ParserRows.
Context `{!Builtins}.

(** The loop only reads the columns that the header names. *)
Lemma parse_loop_ext (fields fields' header : list string) (i : nat)
    (pkt : packet) :
  (∀ j, (j < length header)%nat →
        raw_at fields (i + j) = raw_at fields' (i + j)) →
  parse_loop fields i header pkt = parse_loop fields' i header pkt.
Proof.
  revert i pkt. induction header as [|f header IH]; intros i pkt Hsame; [done|].
  simpl. pose proof (Hsame 0%nat ltac:(simpl; lia)) as H0.
  rewrite Nat.add_0_r in H0. rewrite H0.
  destruct (convert_field f (raw_at fields' i)); [|done].
  apply IH. intros j Hj.
  replace (S i + j)%nat with (i + S j)%nat by lia.
  apply Hsame. simpl. lia.
Qed.

(** X14.  The parser reads a row through the header only: columns beyond
    the last header name are ignored, and a row that is too short parses
    like the same row padded with empty columns. *)
Theorem parse_packet_row_length (now : Q) (fields header : list string) :
  (∀ extra, (length header ≤ length fields)%nat →
            parse_packet now (fields ++ extra) header
            = parse_packet now fields header)
  ∧ (∀ k, parse_packet now (fields ++ replicate k ""%string) header
          = parse_packet now fields header).
Proof.
  unfold parse_packet. split.
  - intros extra Hlen.
    rewrite (parse_loop_ext (fields ++ extra) fields); [done|].
    intros j Hj. apply raw_at_app_l. simpl. lia.
  - intros k.
    rewrite (parse_loop_ext (fields ++ replicate k ""%string) fields); [done|].
    intros j _. apply raw_at_pad.
Qed.

Lemma last_occurrence (header : list string) (name : string) :
  name ∈ header →
  ∃ j, header !! j = Some name
       ∧ ∀ j', (j < j')%nat → header !! j' ≠ Some name.
Proof.
  induction header as [|f header IH]; intros Hin.
  - by apply elem_of_nil in Hin.
  - destruct (decide (name ∈ header)) as [Hlater|Hnot].
    + destruct (IH Hlater) as (j & Hj & Hlast). exists (S j). split; [done|].
      intros j' Hlt. destruct j' as [|j']; [lia|]. simpl. apply Hlast. lia.
    + apply elem_of_cons in Hin as [->|?]; [|done]. exists 0%nat.
      split; [done|]. intros j' Hlt Hj'. destruct j' as [|j']; [lia|].
      simpl in Hj'. apply Hnot. by apply list_elem_of_lookup_2 in Hj'.
Qed.

(** X15.  Empty numeric columns never make a row fail: when every numeric
    column of a row is empty (as for a packet without TCP or DNS layer),
    whatever [float] and [int] accept, the row is parsed, not replaced by
    the stand-in, and every numeric field of the header reads as 0. *)
Theorem parse_packet_empty_numeric_columns (now : Q)
    (fields header : list string) :
  (∀ j name, header !! j = Some name →
             name ∈ float_fields ∨ name ∈ int_fields →
             raw_at fields j = ""%string) →
  ¬ conversion_error fields header
  ∧ parse_loop fields 0 header ∅ = Some (parse_packet now fields header)
  ∧ (∀ name, name ∈ header → name ∈ float_fields →
             parse_packet now fields header !! name = Some (VFloat 0))
  ∧ (∀ name, name ∈ header → name ∈ int_fields →
             parse_packet now fields header !! name = Some (VInt 0)).
Proof.
  intros Hempty.
  assert (Hok : ¬ conversion_error fields header).
  { intros (j & name & Hj & Hne & Hnum).
    apply Hne, (Hempty j name Hj). destruct Hnum as [[? _]|[? _]]; tauto. }
  split; [done|]. unfold parse_packet.
  destruct (parse_loop fields 0 header ∅) as [p|] eqn:E.
  - split; [done|].
    apply parse_loop_Some in E as (_ & Hlast & _ & _).
    split; intros name Hin Hkind;
      destruct (last_occurrence header name Hin) as (j & Hj & Hlater);
      rewrite (Hlast j name Hj Hlater); simpl;
      rewrite (Hempty j name Hj) by tauto; unfold convert_field.
    + by rewrite bool_decide_eq_true_2.
    + rewrite bool_decide_eq_false_2
        by (intros Hf; by apply (numeric_fields_disjoint name)).
      by rewrite bool_decide_eq_true_2.
  - apply parse_loop_None in E. by destruct Hok.
Qed.

End ParserRows.

(** ** The loop, pass by pass *)

Lemma deque_append_nonempty {A} (maxlen : nat) (buf : list A) (x : A) :
  (0 < maxlen)%nat → deque_append maxlen buf x ≠ [].
Proof.
  intros Hpos. unfold deque_append.
  destruct (Nat.ltb_spec maxlen (length (buf ++ [x]))) as [Hlt|_].
  - intros Hnil. apply (f_equal length) in Hnil.
    rewrite length_drop in Hnil. simpl in Hnil. lia.
  - by destruct buf.
Qed.

Section LoopPasses.
Context `{!Builtins}.

(** A pass that reads a row, case by case. *)
Lemma loop_body_row_cases (st : capture_state) (r : reading)
    (hdr : list string) :
  header st = Some hdr →
  is_row r →
  let buffer :=
    deque_append BUFFER_MAXLEN (packet_buffer st) (row_packet hdr r) in
  ((METRICS_INTERVAL <= clock r - last_metrics_time st)%Q ∧
   ∃ m, calculate_network_metrics (metrics_clock r) buffer = Some m
        ∧ loop_body st r
          = Continue {| header := Some hdr;
                        packet_buffer := buffer;
                        packets_seen := packets_seen st + 1;
                        last_metrics_time := clock r;
                        csv_rows := csv_rows st ++ [m] |})
  ∨ (¬ (METRICS_INTERVAL <= clock r - last_metrics_time st)%Q ∧
     loop_body st r
     = Continue {| header := Some hdr;
                   packet_buffer := buffer;
                   packets_seen := packets_seen st + 1;
                   last_metrics_time := last_metrics_time st;
                   csv_rows := csv_rows st |}).
Proof.
  intros Hhdr Hrow buffer. unfold loop_body.
  assert (Hraw : raw_line r ≠ ""%string) by (intros Hr; apply Hrow; by rewrite Hr).
  rewrite (bool_decide_eq_false_2 _ Hraw), (bool_decide_eq_false_2 _ Hrow).
  rewrite Hhdr. fold (row_packet hdr r). fold buffer. cbn [last_metrics_time].
  assert (Hne : buffer ≠ []) by (apply deque_append_nonempty; unfold BUFFER_MAXLEN; lia).
  rewrite (bool_decide_eq_false_2 _ Hne). cbn [negb]. rewrite andb_true_r.
  destruct (Qgeb _ _) eqn:Hdue.
  - left. apply Qgeb_le in Hdue. split; [done|].
    destruct (calculate_network_metrics (metrics_clock r) buffer) as [m|] eqn:Hm.
    + exists m. done.
    + by destruct buffer.
  - right. split; [|done].
    intros Hle. apply Qgeb_le in Hle. congruence.
Qed.

End LoopPasses.

(** ** The loop over a run of readings *)

Lemma raw_latency_nonneg (packets : list packet) : (0 <= raw_latency packets)%Q.
Proof.
  unfold raw_latency, rtt_values. rewrite positive_scaled_filter.
  apply (average_or_zero _ (positive_scaled_positive _)).
Qed.

Lemma raw_dns_delay_nonneg (packets : list packet) :
  (0 <= raw_dns_delay packets)%Q.
Proof.
  unfold raw_dns_delay, dns_delay_values. rewrite positive_scaled_filter.
  apply (average_or_zero _ (positive_scaled_positive _)).
Qed.

Lemma py_round2_nonneg (x : Q) : (0 <= x)%Q → (0 <= py_round2 x)%Q.
Proof.
  intros Hx. pose proof (py_round2_mono _ _ Hx) as Hm.
  assert (H0 : (py_round2 0 == 0)%Q) by reflexivity. lra.
Qed.

Section LoopRuns.
Context `{!Builtins}.

Lemma metrics_record_plausible (now : Q) (packets : list packet)
    (m : MetricsRecord) :
  calculate_network_metrics now packets = Some m →
  (length packets ≤ BUFFER_MAXLEN)%nat →
  plausible_record m.
Proof.
  intros Hm Hlen. apply calculate_network_metrics_Some in Hm as [Hne ->].
  unfold plausible_record.
  cbn [packet_count health_score packet_loss latency dns_delay
       top_applications protocol_counts].
  assert (Hpos : (0 < length packets)%nat) by (destruct packets; [done|simpl; lia]).
  split; [lia|]. split; [unfold health_of; lia|].
  split; [|split; [|split; [|split]]].
  - pose proof (raw_packet_loss_bounds packets) as [Hlo Hhi].
    pose proof (py_round2_mono _ _ Hlo) as Hlo'.
    pose proof (py_round2_mono _ _ Hhi) as Hhi'.
    assert (Hz0 : (py_round2 0 == 0)%Q) by reflexivity.
    assert (Hz100 : (py_round2 100 == 100)%Q) by reflexivity.
    lra.
  - apply py_round2_nonneg, raw_latency_nonneg.
  - apply py_round2_nonneg, raw_dns_delay_nonneg.
  - rewrite length_map, length_take. lia.
  - destruct (count_protocols_from packets []) as (Hsum & _).
    unfold count_protocols. rewrite Hsum. done.
Qed.

Lemma loop_body_blank_continue (st : capture_state) (r : reading) :
  ¬ is_row r → keeps_running r → loop_body st r = Continue st.
Proof.
  intros Hblank Hrun. unfold loop_body.
  assert (Hstrip : strip (raw_line r) = ""%string).
  { destruct (decide (strip (raw_line r) = ""%string)); [done|by destruct Hblank]. }
  case_bool_decide as Hraw; [by rewrite (Hrun Hraw)|].
  by rewrite bool_decide_eq_true_2.
Qed.

Lemma loop_body_first_line (st : capture_state) (r : reading) :
  header st = None →
  is_row r →
  loop_body st r
  = Continue {| header := Some (split_comma (strip (raw_line r)));
                packet_buffer := packet_buffer st;
                packets_seen := packets_seen st;
                last_metrics_time := last_metrics_time st;
                csv_rows := csv_rows st |}.
Proof.
  intros Hhdr Hrow. unfold loop_body.
  assert (Hraw : raw_line r ≠ ""%string) by (intros Hr; apply Hrow; by rewrite Hr).
  rewrite (bool_decide_eq_false_2 _ Hraw), (bool_decide_eq_false_2 _ Hrow).
  by rewrite Hhdr.
Qed.

(** What one pass does to the rows and to the time of the last
    computation. *)
Lemma loop_body_rows_step (st : capture_state) (r : reading) :
  let st' := outcome_state (loop_body st r) in
  (csv_rows st' = csv_rows st ∧ last_metrics_time st' = last_metrics_time st)
  ∨ (is_row r
     ∧ (METRICS_INTERVAL <= clock r - last_metrics_time st)%Q
     ∧ last_metrics_time st' = clock r
     ∧ ∃ m, csv_rows st' = csv_rows st ++ [m]
            ∧ calculate_network_metrics (metrics_clock r) (packet_buffer st')
              = Some m).
Proof.
  destruct (decide (is_row r)) as [Hrow|Hblank].
  - destruct (header st) as [hdr|] eqn:Hhdr.
    + destruct (loop_body_row_cases st r hdr Hhdr Hrow)
        as [[Hdue (m & Hm & ->)]|[Hnot ->]]; cbn.
      * right. split; [done|]. split; [done|]. split; [done|]. by exists m.
      * by left.
    + rewrite loop_body_first_line by done. by left.
  - left. rewrite loop_body_blank; [done|].
    destruct (decide (strip (raw_line r) = ""%string)); [done|by destruct Hblank].
Qed.

Lemma run_loop_rows_grow (rs : list reading) (st : capture_state) :
  ∃ added,
    csv_rows (run_loop st rs) = csv_rows st ++ added
    ∧ (added = [] →
       last_metrics_time (run_loop st rs) = last_metrics_time st)
    ∧ (length added ≤ length (filter is_row rs))%nat.
Proof.
  revert st. induction rs as [|r rs IH]; intros st.
  - exists []. simpl. by rewrite app_nil_r.
  - pose proof (loop_body_rows_step st r) as Hstep. cbv zeta in Hstep. simpl.
    assert (Hgoal : ∀ st', outcome_state (loop_body st r) = st' →
              ∃ added1,
                csv_rows st' = csv_rows st ++ added1
                ∧ (added1 = [] → last_metrics_time st' = last_metrics_time st)
                ∧ (length added1 ≤ length (filter is_row [r]))%nat).
    { intros st' <-. destruct Hstep as [[Hrows Hlast]|(Hrow & _ & _ & m & Hrows & _)].
      - exists []. rewrite app_nil_r. split; [done|]. split; [done|]. simpl. lia.
      - exists [m]. split; [done|]. split; [done|].
        rewrite filter_cons_True by done. simpl. lia. }
    assert (Hlen : (length (filter is_row (r :: rs))
                    = length (filter is_row [r]) + length (filter is_row rs))%nat).
    { change (r :: rs) with ([r] ++ rs). by rewrite filter_app, length_app. }
    destruct (loop_body st r) as [st'|st'] eqn:E.
    + destruct (Hgoal st' eq_refl) as (a1 & Ha1 & Hl1 & Hn1).
      destruct (IH st') as (a2 & Ha2 & Hl2 & Hn2).
      exists (a1 ++ a2). rewrite Ha2, Ha1, app_assoc. split; [done|].
      split; [|rewrite length_app; lia].
      intros Hnil. apply app_eq_nil in Hnil as [-> ->].
      rewrite Hl2, Hl1; done.
    + destruct (Hgoal st' eq_refl) as (a1 & Ha1 & Hl1 & Hn1).
      exists a1. split; [done|]. split; [done|]. lia.
Qed.

(** X17.  The loop never changes or removes a row that it has written,
    and it writes at most one row for each packet it reads: the rows
    before a run are a prefix of the rows after it. *)
Theorem rows_only_grow (st : capture_state) (rs : list reading) :
  csv_rows st `prefix_of` csv_rows (run_loop st rs)
  ∧ (length (csv_rows (run_loop st rs))
     ≤ length (csv_rows st) + length (filter is_row rs))%nat.
Proof.
  destruct (run_loop_rows_grow rs st) as (added & Hrows & _ & Hlen).
  rewrite Hrows. split; [by exists added|]. rewrite length_app. lia.
Qed.

(** X18.  Two rows that follow each other in the output were computed at
    least 5 seconds apart on the clock: if a pass writes a row, the
    passes after it write none, and then a pass writes the next row, the
    current times of the two writing passes differ by at least the
    interval. *)
Theorem rows_are_spaced (st : capture_state) (r1 r2 : reading)
    (rs : list reading) :
  let st1 := outcome_state (loop_body st r1) in
  let st2 := run_loop st1 rs in
  csv_rows st1 ≠ csv_rows st →
  csv_rows st2 = csv_rows st1 →
  csv_rows (outcome_state (loop_body st2 r2)) ≠ csv_rows st2 →
  (METRICS_INTERVAL <= clock r2 - clock r1)%Q.
Proof.
  intros st1 st2 Hfirst Hquiet Hsecond.
  assert (Hlast1 : last_metrics_time st1 = clock r1).
  { destruct (loop_body_rows_step st r1) as [[Hsame _]|(_ & _ & Hl & _)];
      [by destruct Hfirst|done]. }
  assert (Hlast2 : last_metrics_time st2 = clock r1).
  { destruct (run_loop_rows_grow rs st1) as (added & Hrows & Hl & _).
    fold st2 in Hrows, Hl. rewrite <- Hlast1. apply Hl.
    rewrite Hquiet in Hrows. rewrite <- (app_nil_r (csv_rows st1)) in Hrows at 1.
    by apply app_inv_head in Hrows. }
  destruct (loop_body_rows_step st2 r2) as [[Hsame _]|(_ & Hdue & _)];
    [by destruct Hsecond|]. by rewrite Hlast2 in Hdue.
Qed.

Lemma loop_body_plausible (st : capture_state) (r : reading) :
  (length (packet_buffer st) ≤ BUFFER_MAXLEN)%nat →
  Forall plausible_record (csv_rows st) →
  (length (packet_buffer (outcome_state (loop_body st r))) ≤ BUFFER_MAXLEN)%nat
  ∧ Forall plausible_record (csv_rows (outcome_state (loop_body st r))).
Proof.
  intros Hlen Hrows.
  assert (Hbuf : (length (packet_buffer (outcome_state (loop_body st r)))
                  ≤ BUFFER_MAXLEN)%nat).
  { destruct (decide (is_row r)) as [Hrow|Hblank].
    - destruct (header st) as [hdr|] eqn:Hhdr.
      + destruct (loop_body_row_cases st r hdr Hhdr Hrow)
          as [[_ (m & _ & ->)]|[_ ->]]; cbn; by apply deque_append_length.
      + by rewrite loop_body_first_line.
    - rewrite loop_body_blank; [done|].
      destruct (decide (strip (raw_line r) = ""%string)); [done|by destruct Hblank]. }
  split; [done|].
  destruct (loop_body_rows_step st r) as [[-> _]|(_ & _ & _ & m & -> & Hm)];
    [done|].
  apply Forall_app. split; [done|]. apply Forall_singleton.
  by apply (metrics_record_plausible _ _ _ Hm).
Qed.

(** X19.  From the start of the capture on, the buffer never holds more
    than 1000 packets and every row written describes between 1 and 1000
    packets, with a health score between 1 and 100, a packet loss
    between 0 and 100, a latency and a DNS delay that are not negative,
    at most three top applications, and protocol counts that add up to
    the packet count. *)
Theorem written_rows_are_plausible (start : Q) (rs : list reading) :
  (length (packet_buffer (run_loop (initial_state start) rs))
   ≤ BUFFER_MAXLEN)%nat
  ∧ Forall plausible_record (csv_rows (run_loop (initial_state start) rs)).
Proof.
  assert (Hinv : ∀ rs st,
            (length (packet_buffer st) ≤ BUFFER_MAXLEN)%nat →
            Forall plausible_record (csv_rows st) →
            (length (packet_buffer (run_loop st rs)) ≤ BUFFER_MAXLEN)%nat
            ∧ Forall plausible_record (csv_rows (run_loop st rs))).
  { clear rs. induction rs as [|r rs IH]; intros st Hlen Hrows; [done|].
    simpl. destruct (loop_body_plausible st r Hlen Hrows) as [Hlen' Hrows'].
    destruct (loop_body st r) as [st'|st']; simpl in *; [by apply IH|done]. }
  apply Hinv; simpl; [lia|constructor].
Qed.

Lemma run_loop_mixed (rs : list reading) (st : capture_state)
    (hdr : list string) :
  header st = Some hdr →
  Forall keeps_running rs →
  header (run_loop st rs) = Some hdr
  ∧ packets_seen (run_loop st rs)
    = packets_seen st + Z.of_nat (length (filter is_row rs))
  ∧ packet_buffer (run_loop st rs)
    = fold_left (deque_append BUFFER_MAXLEN)
        (map (row_packet hdr) (filter is_row rs)) (packet_buffer st).
Proof.
  intros Hhdr Hrun. revert st Hhdr.
  induction Hrun as [|r rs Hr _ IH]; intros st Hhdr; simpl.
  - split; [done|]. split; [lia|done].
  - destruct (decide (is_row r)) as [Hrow|Hblank].
    + rewrite filter_cons_True by done. cbn [map fold_left length].
      destruct (loop_body_row_cases st r hdr Hhdr Hrow)
        as [[_ (m & _ & ->)]|[_ ->]];
        match goal with
        | |- context [run_loop ?s rs] =>
            destruct (IH s eq_refl) as (Hh & Hs & Hb)
        end;
        rewrite Hh, Hs, Hb; cbn; (split; [done|]); (split; [lia|done]).
    + rewrite filter_cons_False by done.
      rewrite loop_body_blank_continue by done. by apply IH.
Qed.

(** X20.  From the start of the capture, the first non-blank line is
    taken as the header and is not counted; after it, as long as the
    capture process runs, every non-blank line counts as one packet,
    blank lines count for nothing, and the buffer holds the packets
    parsed from the last 1000 non-blank lines, in the order read. *)
Theorem capture_run_from_start (start : Q) (h : reading) (rs : list reading) :
  is_row h →
  Forall keeps_running rs →
  let st := run_loop (initial_state start) (h :: rs) in
  let hdr := split_comma (strip (raw_line h)) in
  let rows := filter is_row rs in
  header st = Some hdr
  ∧ packets_seen st = Z.of_nat (length rows)
  ∧ packet_buffer st
    = drop (length rows - BUFFER_MAXLEN) (map (row_packet hdr) rows).
Proof.
  intros Hh Hrun st hdr rows. subst st. simpl.
  rewrite loop_body_first_line by done.
  match goal with
  | |- context [run_loop ?s rs] =>
      destruct (run_loop_mixed rs s hdr eq_refl Hrun) as (Hhdr & Hseen & Hbuf)
  end.
  rewrite Hhdr, Hseen, Hbuf. cbn. fold hdr rows.
  split; [done|]. split; [lia|].
  rewrite deque_appends by (simpl; lia). simpl. by rewrite length_map.
Qed.

End LoopRuns.

(** ** build_tshark_command *)

Lemma extend_fields (fs cmd : list string) :
  fold_left (λ cmd field, cmd ++ ["-e"%string; field]) fs cmd
  = cmd ++ concat (map (λ field, ["-e"%string; field]) fs).
Proof.
  revert cmd. induction fs as [|f fs IH]; intros cmd; simpl.
  - by rewrite app_nil_r.
  - rewrite IH. by rewrite <- app_assoc.
Qed.

Lemma field_options_lookup (fs : list string) (i : nat) (f : string) :
  fs !! i = Some f →
  concat (map (λ field, ["-e"%string; field]) fs) !! (2 * i)%nat
  = Some "-e"%string
  ∧ concat (map (λ field, ["-e"%string; field]) fs) !! (2 * i + 1)%nat = Some f.
Proof.
  revert i. induction fs as [|g fs IH]; intros i Hi; [done|].
  destruct i as [|i]; simpl in Hi.
  - injection Hi as ->. done.
  - destruct (IH i Hi) as [He Hf].
    replace (2 * S i)%nat with (S (S (2 * i))) by lia.
    replace (S (S (2 * i)) + 1)%nat with (S (S (2 * i + 1))) by lia.
    done.
Qed.

(** X21.  The capture command starts with the program, ["-i"] and the
    interface, asks for field output with a header line and [","] as
    separator, and then names every configured field after an ["-e"] of
    its own, in the order of the configuration: 9 + 2n arguments for n
    fields. *)
Theorem build_tshark_command_arguments (cfg : tshark_config)
    (interface : string) :
  let cmd := build_tshark_command cfg interface in
  length cmd = (9 + 2 * length (cfg_fields cfg))%nat
  ∧ take 9 cmd
    = [ cfg_command cfg; "-i"; interface; "-T"; "fields"; "-E"; "header=y";
        "-E"; "separator=," ]%string
  ∧ ∀ i field, cfg_fields cfg !! i = Some field →
               cmd !! (9 + 2 * i)%nat = Some "-e"%string
               ∧ cmd !! (10 + 2 * i)%nat = Some field.
Proof.
  intros cmd. subst cmd. unfold build_tshark_command. rewrite extend_fields.
  split; [|split].
  - rewrite length_app. cbn [length]. f_equal.
    induction (cfg_fields cfg) as [|f fs IH]; [done|].
    cbn [map concat length]. rewrite length_app, IH. simpl. lia.
  - done.
  - intros i field Hi. destruct (field_options_lookup _ i field Hi) as [He Hf].
    split.
    + rewrite lookup_app_r by (simpl; lia).
      replace (9 + 2 * i - length _)%nat with (2 * i)%nat by (simpl; lia). done.
    + rewrite lookup_app_r by (simpl; lia).
      replace (10 + 2 * i - length _)%nat with (2 * i + 1)%nat by (simpl; lia).
      done.
Qed.

(** ** The further properties on sample data *)

Lemma top_applications_volumes_witness :
  Forall well_typed jittery
  ∧ NoDup (map fst (identify_top_applications jittery 5)).
Proof.
  split; [exact jittery_well_typed|].
  destruct (top_applications_volumes jittery 5 jittery_well_typed) as [Hnd _].
  exact Hnd.
Defined.

Lemma top_applications_are_the_largest_witness :
  Forall well_typed jittery
  ∧ length (identify_top_applications jittery 1) = 1%nat
  ∧ StronglySorted by_volume_desc (identify_top_applications jittery 1).
Proof.
  split; [exact jittery_well_typed|].
  destruct (top_applications_are_the_largest jittery 1 jittery_well_typed)
    as (Hlen & Hsorted & _).
  split; [exact Hlen|exact Hsorted].
Defined.

Lemma top_applications_conserve_bytes_witness :
  (length jittery ≤ 5)%nat
  ∧ sumZ (map snd (identify_top_applications jittery 5)) = total_bytes jittery.
Proof.
  split; [simpl; lia|].
  apply (top_applications_conserve_bytes jittery 5 jittery_well_typed).
  simpl. lia.
Defined.

Lemma top_applications_ties_first_seen_witness :
  Forall well_typed (jittery ++ [spare_packet])
  ∧ filter (λ e, e.2 = 90) (identify_top_applications jittery 5)
    `prefix_of` filter (λ e, e.2 = 90) (aggregate_applications jittery).
Proof.
  assert (Hwt : Forall well_typed (jittery ++ [spare_packet])).
  { apply (bool_decide_unpack _). vm_compute. exact I. }
  split; [exact Hwt|].
  destruct (top_applications_ties_first_seen jittery spare_packet 5 90 Hwt)
    as [_ Hprefix].
  exact Hprefix.
Defined.

Lemma record_top_applications_witness :
  ∃ m, @calculate_network_metrics sample_builtins 0 jittery = Some m
       ∧ top_applications m = map fst (identify_top_applications jittery 3)
       ∧ NoDup (top_applications m).
Proof.
  eexists. split; [reflexivity|].
  destruct (@record_top_applications sample_builtins 0 jittery _
              jittery_well_typed eq_refl) as (Heq & _ & Hnd & _).
  split; [exact Heq|exact Hnd].
Defined.

Lemma latency_and_dns_delay_zero_iff_witness :
  Forall well_typed jittery
  ∧ (0 <= raw_latency jittery)%Q ∧ (0 <= raw_dns_delay jittery)%Q.
Proof.
  split; [exact jittery_well_typed|].
  destruct (latency_and_dns_delay_zero_iff jittery jittery_well_typed)
    as (Hlat & _ & Hdns & _).
  split; [exact Hlat|exact Hdns].
Defined.

Lemma packet_loss_is_percentage_witness :
  ∃ m, @calculate_network_metrics sample_builtins 0 jittery = Some m
       ∧ (0 <= packet_loss m <= 100)%Q.
Proof.
  eexists. split; [reflexivity|].
  destruct (@packet_loss_is_percentage sample_builtins 0 jittery _
              jittery_well_typed eq_refl) as (_ & Hrange & _).
  exact Hrange.
Defined.

Lemma bandwidth_over_time_span_witness :
  jittery ≠ []
  ∧ ∃ hi lo, max_list (timestamps jittery) = Some hi
             ∧ min_list (timestamps jittery) = Some lo
             ∧ (lo <= hi)%Q.
Proof.
  split; [discriminate|].
  destruct (bandwidth_over_time_span jittery jittery_well_typed)
    as (hi & lo & Hmax & Hmin & Hle & _); [discriminate|].
  exists hi, lo. split; [exact Hmax|]. split; [exact Hmin|exact Hle].
Defined.

Lemma health_score_monotone_witness :
  health_of 100 20 2 3 30 ≤ health_of 50 10 1 5 10.
Proof.
  apply (health_score_monotone 50 100 10 20 1 2 5 3 10 30); discriminate.
Defined.

Lemma classifications_monotone_witness :
  (stability_rank (stability_of 5 0.5)
   ≤ stability_rank (stability_of 20 3))%nat
  ∧ (congestion_rank (congestion_of 9000 6)
     ≤ congestion_rank (congestion_of 3000 1))%nat.
Proof.
  destruct (classifications_monotone 5 20 0.5 3 3000 9000 1 6)
    as (Hs & Hc & _); try discriminate.
  split; [exact Hs|exact Hc].
Defined.

Lemma parse_packet_empty_numeric_columns_witness :
  @parse_packet sample_builtins 99 [] TSHARK_fields !! "frame.len"%string
  = Some (VInt 0).
Proof.
  destruct (@parse_packet_empty_numeric_columns sample_builtins 99 []
              TSHARK_fields) as (_ & _ & _ & Hint).
  - intros j name _ _. reflexivity.
  - apply Hint; apply (bool_decide_unpack _); vm_compute; exact I.
Defined.

Lemma rows_are_spaced_witness :
  (METRICS_INTERVAL <= clock later_reading - clock due_reading)%Q.
Proof.
  apply (@rows_are_spaced sample_builtins after_header due_reading
           later_reading [early_reading; blank_reading]).
  - vm_compute. discriminate.
  - vm_compute. reflexivity.
  - vm_compute. discriminate.
Defined.

Lemma capture_run_from_start_witness :
  is_row header_reading
  ∧ packets_seen
      (@run_loop sample_builtins (initial_state 0)
         [header_reading; due_reading; blank_reading; early_reading])
    = 2.
Proof.
  assert (Hrow : is_row header_reading) by (vm_compute; discriminate).
  split; [exact Hrow|].
  destruct (@capture_run_from_start sample_builtins 0 header_reading
              [due_reading; blank_reading; early_reading] Hrow)
    as (_ & Hseen & _).
  - repeat constructor; intros Hraw; vm_compute in Hraw; discriminate.
  - exact Hseen.
Defined.

(** * Calls that raise *)

(** ** calculate_network_metrics with its OverflowError *)

Lemma sumQ_inject (values : list Z) :
  (sumQ (map inject_Z values) == inject_Z (sumZ values))%Q.
Proof.
  induction values as [|x xs IH].
  - done.
  - cbn [map]. rewrite sumQ_cons, sumZ_cons, IH, inject_Z_plus. done.
Qed.

Lemma window_values_sizes (packets : list packet) :
  window_values packets = map inject_Z (window_sizes packets).
Proof. unfold window_values, window_sizes. by rewrite map_map. Qed.



(** Without overflow the bandwidth is the one of [raw_bandwidth]. *)
Lemma bandwidth_call_Some (packets : list packet) (b : Q) :
  bandwidth_call packets = Some b → b = raw_bandwidth packets.
Proof.
  unfold bandwidth_call, raw_bandwidth, int_to_float.
  destruct (max_list (timestamps packets)) as [hi|],
           (min_list (timestamps packets)) as [lo|]; try congruence.
  destruct (Qgtb _ _); [|congruence].
  destruct (_ <? _); simpl; congruence.
Qed.


(** Without overflow the average window is the one of [avg_window]. *)
Lemma avg_window_call_Some (packets : list packet) (w : Q) :
  avg_window_call packets = Some w → (w == avg_window packets)%Q.
Proof.
  unfold avg_window_call, avg_window. rewrite window_values_sizes.
  destruct (window_sizes packets) as [|x xs] eqn:E; [by intros [= <-]|].
  unfold int_true_divide. destruct (Qltb _ _); [|done]. intros [= <-].
  change (map inject_Z (x :: xs)) with (inject_Z x :: map inject_Z xs).
  change (inject_Z x :: map inject_Z xs) with (map inject_Z (x :: xs)).
  unfold calculate_average. cbn [map].
  change (inject_Z x :: map inject_Z xs) with (map inject_Z (x :: xs)).
  by rewrite sumQ_inject, length_map.
Qed.


#[export] Instance congestion_of_proper :
  Proper (Qeq ==> Qeq ==> eq) congestion_of.
Proof.
  intros w w' Hw b b' Hb. unfold congestion_of, Qgtb.
  by rewrite !(Qltb_proper _ _ (Qeq_refl _) _ _ Hw),
             !(Qltb_proper _ _ (Qeq_refl _) _ _ Hb).
Qed.

Section Calls.
Context `{!Builtins}.

(** A call that returns returns what [calculate_network_metrics] gives. *)
Lemma calculate_network_metrics_call_Returned (now : Q)
    (packets : list packet) (r : option MetricsRecord) :
  calculate_network_metrics_call now packets = Returned r →
  r = calculate_network_metrics now packets.
Proof.
  destruct packets as [|p0 ps]; [by intros [= <-]|].
  set (packets := p0 :: ps). unfold calculate_network_metrics_call.
  fold packets. cbv zeta.
  destruct (bandwidth_call packets) as [b|] eqn:Hb; [|done].
  destruct (avg_window_call packets) as [w|] eqn:Hw; [|done].
  apply bandwidth_call_Some in Hb as ->. apply avg_window_call_Some in Hw.
  intros [= <-]. unfold packets at 1. unfold calculate_network_metrics.
  fold packets. cbv zeta.
  by rewrite (congestion_of_proper _ _ Hw _ _ (Qeq_refl _)).
Qed.

Lemma calculate_network_metrics_call_cases (now : Q) (packets : list packet) :
  packets ≠ [] →
  (calculate_network_metrics_call now packets = Raised
   ∧ (bandwidth_call packets = None ∨ avg_window_call packets = None))
  ∨ (∃ m, calculate_network_metrics_call now packets = Returned (Some m)
          ∧ calculate_network_metrics now packets = Some m
          ∧ is_Some (bandwidth_call packets)
          ∧ is_Some (avg_window_call packets)).
Proof.
  intros Hne.
  destruct (calculate_network_metrics_call now packets) as [|r] eqn:Hcall.
  - left. split; [done|]. destruct packets as [|p0 ps]; [done|].
    unfold calculate_network_metrics_call in Hcall. cbv zeta in Hcall.
    destruct (bandwidth_call (p0 :: ps)); [|by left].
    destruct (avg_window_call (p0 :: ps)); [done|by right].
  - right. pose proof (calculate_network_metrics_call_Returned _ _ _ Hcall) as Hr.
    destruct packets as [|p0 ps]; [done|].
    unfold calculate_network_metrics_call in Hcall. cbv zeta in Hcall.
    destruct (bandwidth_call (p0 :: ps)); [|done].
    destruct (avg_window_call (p0 :: ps)); [|done].
    injection Hcall as <-. eexists. split; [done|]. split; [done|].
    split; by eexists.
Qed.

End Calls.




Section CallsReturn.
Context `{!Builtins}.


End CallsReturn.



(** ** The two branches of calculate_std_dev *)

Section Branches.
Context `{!Builtins}.

(** C9, in exact arithmetic.  For every list of at least 2 values the
    primary path and the manual fallback take the square root of the same
    number: the sum of the squared differences from the mean over
    [n - 1], which is not negative.  The identity is one of exact
    arithmetic; in double precision the primary path rounds once and the
    fallback at every step, and the two results can differ. *)
Theorem branches_share_radicand (values : list Q) :
  (2 ≤ length values)%nat →
  ∃ v w, statistics_stdev values = Some (math_sqrt v)
         ∧ std_dev_fallback values = math_sqrt w
         ∧ (v == w)%Q
         ∧ (w == sample_variance values)%Q
         ∧ (0 <= w)%Q.
Proof.
  intros Hlen. unfold statistics_stdev, std_dev_fallback.
  destruct (Nat.ltb_spec (length values) 2) as [Hlt|_]; [lia|].
  assert (Hne : values ≠ []) by (destruct values; [simpl in Hlen; lia|done]).
  rewrite (calculate_average_mean _ Hne). cbv zeta.
  eexists _, _. split; [reflexivity|]. split; [reflexivity|].
  fold (sample_variance values).
  split; [by apply variance_two_ways|]. split; [reflexivity|].
  by apply sample_variance_nonneg.
Qed.

End Branches.

Lemma branches_share_radicand_witness :
  ∃ v w, @statistics_stdev sample_builtins [1; 3; 5]%Q
         = Some (@math_sqrt sample_builtins v)
         ∧ @std_dev_fallback sample_builtins [1; 3; 5]%Q
           = @math_sqrt sample_builtins w
         ∧ (v == w)%Q.
Proof.
  destruct (@branches_share_radicand sample_builtins [1; 3; 5]%Q)
    as (v & w & Hv & Hw & Hvw & _).
  - simpl. lia.
  - exists v, w. split; [exact Hv|]. split; [exact Hw|exact Hvw].
Defined.

(** C9, as stated, fails in double precision: on the doubles nearest to
    0.1 and 0.2 the primary path and the fallback both return, with
    results one unit in the last place apart, and the helper returns the
    first. *)
Lemma branches_differ_on_tenth_and_fifth :
  statistics_stdev_double tenth_and_fifth = Some 0x1.21a1851ff630ap-4%float
  ∧ std_dev_fallback_double tenth_and_fifth = Some 0x1.21a1851ff630bp-4%float
  ∧ calculate_std_dev_double tenth_and_fifth = Some 0x1.21a1851ff630ap-4%float
  ∧ PrimFloat.eqb 0x1.21a1851ff630ap-4 0x1.21a1851ff630bp-4 = false
  ∧ statistics_stdev_double tenth_and_fifth
    ≠ std_dev_fallback_double tenth_and_fifth.
Proof.
  assert (Hne : PrimFloat.eqb 0x1.21a1851ff630ap-4 0x1.21a1851ff630bp-4 = false)
    by (vm_compute; reflexivity).
  assert (Hp : statistics_stdev_double tenth_and_fifth
               = Some 0x1.21a1851ff630ap-4%float) by (vm_compute; reflexivity).
  assert (Hf : std_dev_fallback_double tenth_and_fifth
               = Some 0x1.21a1851ff630bp-4%float) by (vm_compute; reflexivity).
  split; [exact Hp|]. split; [exact Hf|].
  split; [vm_compute; reflexivity|]. split; [exact Hne|].
  rewrite Hp, Hf. intros Heq.
  apply (f_equal (λ o, if o is Some x
                       then PrimFloat.eqb x 0x1.21a1851ff630bp-4 else false))
    in Heq.
  vm_compute in Heq. discriminate.
Qed.

(** ** A pass of the loop that may raise *)

Section Passes.
Context `{!Builtins}.

(** A pass that does not fail is the pass of [loop_body]. *)
Lemma loop_pass_loop_body (st : capture_state) (r : reading) :
  match loop_pass st r with
  | Goes_on st' => loop_body st r = Continue st'
  | Leaves st' => loop_body st r = Break st'
  | Fails _ => True
  end.
Proof.
  unfold loop_pass, loop_body.
  repeat case_bool_decide; try (by destruct (process_ended r)).
  destruct (header st) as [hdr|]; [|done].
  destruct (_ && _); [|done].
  destruct (calculate_network_metrics_call _ _) as [|[m|]] eqn:Hcall; [done| |];
    apply calculate_network_metrics_call_Returned in Hcall; by rewrite <- Hcall.
Qed.

(** X16.  A pass that reads a row after the header line appends and
    counts the packet, and computes metrics exactly when at least 5
    seconds have passed on the clock since the last computation.  When
    the computation returns its record, one row is added, computed from
    the buffer that already holds the new packet, the time of the last
    computation becomes the current time and the loop goes on.  When the
    computation raises, no row is written, the time of the last
    computation stays and the loop is left through its exception
    handler.  When less than 5 seconds have passed, neither the rows nor
    that time change and the loop goes on. *)
Theorem row_pass_outcomes (st : capture_state) (r : reading)
    (hdr : list string) :
  header st = Some hdr →
  is_row r →
  let buffer :=
    deque_append BUFFER_MAXLEN (packet_buffer st) (row_packet hdr r) in
  let appended :=
    {| header := Some hdr;
       packet_buffer := buffer;
       packets_seen := packets_seen st + 1;
       last_metrics_time := last_metrics_time st;
       csv_rows := csv_rows st |} in
  let due := (METRICS_INTERVAL <= clock r - last_metrics_time st)%Q in
  let call := calculate_network_metrics_call (metrics_clock r) buffer in
  row_packet hdr r ∈ buffer
  ∧ (¬ due → loop_pass st r = Goes_on appended)
  ∧ (due →
     (call = Raised ∧ loop_pass st r = Fails appended)
     ∨ (∃ m, call = Returned (Some m)
             ∧ loop_pass st r
               = Goes_on {| header := Some hdr;
                            packet_buffer := buffer;
                            packets_seen := packets_seen st + 1;
                            last_metrics_time := clock r;
                            csv_rows := csv_rows st ++ [m] |}))
  ∧ (csv_rows (pass_state (loop_pass st r)) ≠ csv_rows st
     ↔ due ∧ ∃ m, call = Returned (Some m)).
Proof.
  intros Hhdr Hrow buffer appended due call.
  assert (Hin : row_packet hdr r ∈ buffer).
  { unfold buffer, deque_append.
    destruct (_ <? _)%nat eqn:E; [|apply elem_of_app; right; apply list_elem_of_here].
    apply Nat.ltb_lt in E. rewrite length_app in E. simpl in E.
    unfold BUFFER_MAXLEN in E.
    rewrite drop_app_le by lia. apply elem_of_app. right. apply list_elem_of_here. }
  assert (Hne : buffer ≠ [])
    by (apply deque_append_nonempty; unfold BUFFER_MAXLEN; lia).
  assert (Hraw : raw_line r ≠ ""%string)
    by (intros Hr; apply Hrow; by rewrite Hr).
  assert (Hpass : loop_pass st r
                  = if Qgeb (clock r - last_metrics_time st) METRICS_INTERVAL
                    then match call with
                         | Raised => Fails appended
                         | Returned (Some m) =>
                             Goes_on {| header := Some hdr;
                                        packet_buffer := buffer;
                                        packets_seen := packets_seen st + 1;
                                        last_metrics_time := clock r;
                                        csv_rows := csv_rows st ++ [m] |}
                         | Returned None => Goes_on appended
                         end
                    else Goes_on appended).
  { unfold loop_pass.
    rewrite (bool_decide_eq_false_2 _ Hraw), (bool_decide_eq_false_2 _ Hrow).
    rewrite Hhdr. fold (row_packet hdr r). fold buffer. cbn [last_metrics_time].
    rewrite (bool_decide_eq_false_2 _ Hne). cbn [negb]. rewrite andb_true_r.
    done. }
  assert (Hcases : call = Raised ∨ ∃ m, call = Returned (Some m)).
  { destruct (calculate_network_metrics_call_cases (metrics_clock r) buffer Hne)
      as [[Hr _]|(m & Hm & _)]; [by left|right; by exists m]. }
  assert (Hgrow : ∀ m, csv_rows st ++ [m] ≠ csv_rows st).
  { intros m Heq. apply (f_equal length) in Heq.
    rewrite length_app in Heq. simpl in Heq. lia. }
  rewrite Hpass. split; [exact Hin|].
  destruct (Qgeb _ _) eqn:Hdue.
  - apply Qgeb_le in Hdue. fold due in Hdue.
    split; [done|]. split.
    + intros _. destruct Hcases as [Hr|[m Hm]]; rewrite ?Hr, ?Hm.
      * by left.
      * right. by exists m.
    + destruct Hcases as [Hr|[m Hm]]; rewrite ?Hr, ?Hm; cbn.
      * split; [done|]. intros [_ [m Hm]]. congruence.
      * split; [|intros _; apply Hgrow]. intros _. split; [done|by exists m].
  - assert (Hnot : ¬ due).
    { intros Hle. apply Qgeb_le in Hle. congruence. }
    split; [done|]. split; [done|]. cbn. split; [done|]. by intros [? _].
Qed.

End Passes.

Lemma row_pass_outcomes_witness :
  is_row due_reading
  ∧ csv_rows (pass_state (@loop_pass sample_builtins after_header due_reading))
    ≠ csv_rows after_header.
Proof.
  assert (Hrow : is_row due_reading) by (vm_compute; discriminate).
  split; [exact Hrow|].
  destruct (@row_pass_outcomes sample_builtins after_header due_reading
              TSHARK_fields eq_refl Hrow) as (_ & _ & _ & Hiff).
  apply Hiff. split; [discriminate|].
  eexists. vm_compute. reflexivity.
Defined.

(** A due pass whose buffer holds a frame length of [10^400]: the packet
    is appended and counted, no row is written and the loop is left. *)
Lemma loop_pass_fails_on_huge_state :
  ∃ st, @loop_pass sample_builtins huge_state due_reading = Fails st
        ∧ packets_seen st = 2
        ∧ csv_rows st = [].
Proof. eexists. vm_compute. split; [reflexivity|]. split; reflexivity. Qed.
